(** * wgmgmt: the WireGuard status reconciliation engine

    A shallow embedding of [supabase/functions/wireguard-manager/index.ts]
    and of the table definitions of the SQL migrations, with the
    properties of the status parser, the reconciler and the peer
    lifecycle.

    Conventions of the embedding.
    - A JavaScript string is a [string]: a sequence of code units below
      256 (the Latin-1 range).  [wg show] prints ASCII only.
    - A JavaScript number that the code keeps integral (seconds, ports,
      epoch milliseconds, byte counters after [Math.floor]) is a [Z],
      exact as long as it stays below [2^53]; [Num.number] adds [NaN]
      and the infinities where the code can produce them.  The one place
      where the source computes on fractions, [parseTransferAmount], is
      embedded on IEEE 754 binary64, with the operations of [SpecFloat].
    - [Date] values are epoch milliseconds; [toISOString] is injective on
      the valid range and is not spelled out, so an ISO timestamp is the
      [Z] it prints.
    - The clock, the outcome of the [wg] command and the outcome of each
      store call are inputs of the functions that consult them. *)

From Stdlib Require Import ZArith Lia Ascii String List Bool.
From Stdlib Require Import SpecFloat.
From stdpp Require Import gmap strings list fin_maps pretty.

Local Open Scope string_scope.
Local Open Scope Z_scope.

(** ** Strings *)

Module Str.

Definition code (c : ascii) : N := N_of_ascii c.

(** [WhiteSpace] and [LineTerminator] of ECMAScript, below 256: the set
    that both [\s] and [String.prototype.trim] use. *)
Definition is_space (c : ascii) : bool :=
  let n := code c in
  ((9 <=? n) && (n <=? 13) || (n =? 32) || (n =? 160))%N.

Definition is_digit (c : ascii) : bool :=
  let n := code c in ((48 <=? n) && (n <=? 57))%N.

(** [.] of a regular expression without the [s] flag. *)
Definition is_not_newline (c : ascii) : bool :=
  let n := code c in negb ((n =? 10) || (n =? 13))%N.

Definition chars (s : string) : list ascii := list_ascii_of_string s.
Definition unchars (l : list ascii) : string := string_of_list_ascii l.

Fixpoint drop_spaces (l : list ascii) : list ascii :=
  match l with
  | c :: l' => if is_space c then drop_spaces l' else l
  | [] => []
  end.

(** [s.trim()] *)
Definition trim (s : string) : string :=
  unchars (rev (drop_spaces (rev (drop_spaces (chars s))))).

Fixpoint is_prefix (p l : list ascii) : bool :=
  match p, l with
  | [], _ => true
  | a :: p', b :: l' => if Ascii.eqb a b then is_prefix p' l' else false
  | _ :: _, [] => false
  end.

(** [s.startsWith(p)] *)
Definition startsWith (s p : string) : bool := is_prefix (chars p) (chars s).

Fixpoint includes_list (p l : list ascii) : bool :=
  is_prefix p l ||
  match l with
  | [] => false
  | _ :: l' => includes_list p l'
  end.

(** [s.includes(p)] *)
Definition includes (s p : string) : bool := includes_list (chars p) (chars s).

(** [s.split(sep)] for a separator of one character: the pieces
    between the separators, the empty ones included. *)
Fixpoint split_list (sep : ascii) (cur : list ascii) (l : list ascii) : list string :=
  match l with
  | [] => [unchars (rev cur)]
  | c :: l' =>
      if Ascii.eqb c sep then unchars (rev cur) :: split_list sep [] l'
      else split_list sep (c :: cur) l'
  end.

Definition split (s : string) (sep : ascii) : list string :=
  split_list sep [] (chars s).

(** [pieces.join(sep)] *)
Fixpoint join (sep : string) (l : list string) : string :=
  match l with
  | [] => ""
  | [x] => x
  | x :: l' => x ++ sep ++ join sep l'
  end.

(** [s === ""] is the falsy string. *)
Definition is_empty (s : string) : bool :=
  match s with EmptyString => true | _ => false end.

End Str.

(** ** Regular expressions

    The expressions of the source are few but they rely on the
    backtracking order of ECMAScript (greedy and lazy quantifiers,
    leftmost match, numbered groups), so the embedding carries a small
    backtracking matcher and writes every expression of the source as a
    term of [re]. *)

Module Regex.

Inductive re : Type :=
| Eps
| Class (p : ascii -> bool)
| Seq (r1 r2 : re)
| Alt (r1 r2 : re)
| Star (greedy : bool) (r : re)
| Group (n : nat) (r : re).

Definition Lit (s : string) : re :=
  fold_right (fun c r => Seq (Class (Ascii.eqb c)) r) Eps (Str.chars s).
Definition Plus (r : re) : re := Seq r (Star true r).
Definition LazyPlus (r : re) : re := Seq r (Star false r).
Definition Opt (r : re) : re := Alt r Eps.
Definition OneOf (s : string) : re :=
  Class (fun c => existsb (Ascii.eqb c) (Str.chars s)).

Definition digit : re := Class Str.is_digit.
Definition space : re := Class Str.is_space.
Definition dot : re := Class Str.is_not_newline.

(** The groups matched so far, the latest binding of a number first. *)
Definition captures : Type := list (nat * list ascii).

Definition group (n : nat) (c : captures) : option string :=
  match find (fun e => Nat.eqb (fst e) n) c with
  | Some e => Some (Str.unchars (snd e))
  | None => None
  end.

Section Matcher.
Context {R : Type}.

(** [run r s c k]: match [r] at the head of [s], then hand the rest of
    the input and the groups to the continuation [k]; [None] makes the
    matcher backtrack into the latest choice.  An iteration of a star
    that consumes nothing is refused, as in ECMAScript. *)
Fixpoint run (r : re) (s : list ascii) (c : captures)
    (k : list ascii -> captures -> option R) {struct r} : option R :=
  match r with
  | Eps => k s c
  | Class p =>
      match s with
      | a :: s' => if p a then k s' c else None
      | [] => None
      end
  | Seq r1 r2 => run r1 s c (fun s' c' => run r2 s' c' k)
  | Alt r1 r2 =>
      match run r1 s c k with
      | Some x => Some x
      | None => run r2 s c k
      end
  | Star greedy r1 =>
      (fix loop (n : nat) (s : list ascii) (c : captures) {struct n} : option R :=
         match n with
         | O => k s c
         | S n' =>
             let again :=
               run r1 s c (fun s' c' =>
                 if Nat.ltb (length s') (length s) then loop n' s' c' else None) in
             if greedy then
               match again with
               | Some x => Some x
               | None => k s c
               end
             else
               match k s c with
               | Some x => Some x
               | None => again
               end
         end) (length s) s c
  | Group n r1 =>
      run r1 s c (fun s' c' =>
        k s' ((n, firstn (length s - length s') s) :: c'))
  end.
End Matcher.

(** What a successful match reports: the matched text (group 0), the
    groups, and the input left after the match. *)
Record result : Type := Result {
  whole : string;
  groups : captures;
  rest : list ascii
}.

Definition match_here (r : re) (s : list ascii) : option result :=
  run r s [] (fun s' c =>
    Some (Result (Str.unchars (firstn (length s - length s') s)) c s')).

(** The leftmost match: [RegExp.prototype.exec] without flags. *)
Fixpoint search (r : re) (s : list ascii) : option result :=
  match match_here r s with
  | Some m => Some m
  | None =>
      match s with
      | [] => None
      | _ :: s' => search r s'
      end
  end.

(** [s.match(r)] for [r] without the [g] flag. *)
Definition match_first (r : re) (s : string) : option result :=
  search r (Str.chars s).

(** [s.match(r)] for [r] with the [g] flag: the texts of the successive
    matches, [None] when there is none.  After a match of the empty
    string the scan moves one character on, and stops at the end. *)
Fixpoint search_all (fuel : nat) (r : re) (s : list ascii) : list string :=
  match fuel with
  | O => []
  | S fuel' =>
      match search r s with
      | None => []
      | Some m =>
          whole m ::
          if Str.is_empty (whole m) then
            match rest m with
            | [] => []
            | _ :: s' => search_all fuel' r s'
            end
          else search_all fuel' r (rest m)
      end
  end.

Definition match_all (r : re) (s : string) : option (list string) :=
  match search_all (2 + String.length s) r (Str.chars s) with
  | [] => None
  | l => Some l
  end.

End Regex.

(** ** Numbers *)

Module Num.

(** A JavaScript number as the code uses it: an integer, [NaN], or an
    infinity.  [Int z] stands for the double nearest to [z], which is
    [z] itself up to 2^53.  Beyond, what the code does with the number
    gives the same result for [z] and for its double: a comparison with
    180 or 3, a handshake time outside the range of [Date], a listen
    port outside the range of the column. *)
Inductive number : Type :=
| Int (z : Z)
| NaN
| Infinity (negative : bool).

(** [x || d] for a number [x]: [0] and [NaN] are falsy. *)
Definition or_default (x : option number) (d : number) : number :=
  match x with
  | None | Some NaN | Some (Int 0) => d
  | Some v => v
  end.

(** Whether a number is truthy: [0] and [NaN] are not. *)
Definition truthy (x : number) : bool :=
  match x with
  | Int 0 | NaN => false
  | _ => true
  end.

(** [JSON.stringify] prints a number that is not finite as [null]; the
    column then holds NULL. *)
Definition to_column (x : number) : option Z :=
  match x with
  | Int z => Some z
  | NaN | Infinity _ => None
  end.

Definition digit_value (c : ascii) : Z := Z.of_N (Str.code c) - 48.

Definition hex_value (c : ascii) : option Z :=
  let n := Z.of_N (Str.code c) in
  if (48 <=? n) && (n <=? 57) then Some (n - 48)
  else if (97 <=? n) && (n <=? 102) then Some (n - 87)
  else if (65 <=? n) && (n <=? 70) then Some (n - 55)
  else None.

(** The value of the longest prefix of digits in the radix, and whether
    the prefix has a digit at all. *)
Fixpoint digits_prefix (radix : Z) (acc : Z) (seen : bool) (l : list ascii)
  : Z * bool :=
  match l with
  | c :: l' =>
      match hex_value c with
      | Some d => if d <? radix then digits_prefix radix (acc * radix + d) true l'
                  else (acc, seen)
      | None => (acc, seen)
      end
  | [] => (acc, seen)
  end.

Definition is_x (c : ascii) : bool :=
  let n := Str.code c in ((n =? 120) || (n =? 88))%N.

(** [parseInt(s)] without a radix: white space, a sign, [0x] for
    radix 16, then the longest prefix of digits; [NaN] without one.  The
    result is the value the digits denote; [parseInt] returns the double
    nearest to it (see [number]). *)
Definition parseInt (s : string) : number :=
  let l := Str.drop_spaces (Str.chars s) in
  let '(neg, l) :=
    match l with
    | "-"%char :: l' => (true, l')
    | "+"%char :: l' => (false, l')
    | _ => (false, l)
    end in
  let '(radix, l) :=
    match l with
    | "0"%char :: x :: l' => if is_x x then (16, l') else (10, l)
    | _ => (10, l)
    end in
  match digits_prefix radix 0 false l with
  | (v, true) => Int (if neg then - v else v)
  | (_, false) => NaN
  end.

(** *** Binary64 *)

Definition binary64 : Type := spec_float.
Definition b64_mul : binary64 -> binary64 -> binary64 := SFmul 53 1024.
Definition b64_div : binary64 -> binary64 -> binary64 := SFdiv 53 1024.

(** The double nearest to an integer. *)
Definition b64_of_Z (z : Z) : binary64 := binary_normalize 53 1024 z 0 false.

(** [Math.floor] of a double, as the integer it denotes. *)
Definition floor (x : binary64) : number :=
  match x with
  | S754_zero _ => Int 0
  | S754_nan => NaN
  | S754_infinity s => Infinity s
  | S754_finite s m e =>
      let v := if s then Z.neg m else Z.pos m in
      Int (if 0 <=? e then v * 2 ^ e else v / 2 ^ (- e))
  end.

Fixpoint decimal (acc : Z) (n : nat) (l : list ascii) : Z * nat * list ascii :=
  match l with
  | c :: l' =>
      if Str.is_digit c then decimal (acc * 10 + digit_value c) (S n) l'
      else (acc, n, l)
  | [] => (acc, n, l)
  end.

(** The double nearest to the fraction [m / d] of two integers, [d]
    positive: the division rounds once, whatever the sizes of [m] and
    [d]. *)
Definition b64_of_fraction (m d : Z) : binary64 :=
  match m, d with
  | Z.pos m, Z.pos d => b64_div (S754_finite false m 0) (S754_finite false d 0)
  | Z.neg m, Z.pos d => b64_div (S754_finite true m 0) (S754_finite false d 0)
  | _, _ => S754_zero false
  end.

(** [parseFloat(s)] for [s] made of digits and dots, the only texts the
    source passes: the longest prefix [digits], [digits.digits] or
    [.digits] is a decimal [m / 10^k], read as the nearest double; [NaN]
    when the prefix has no digit. *)
Definition parseFloat (s : string) : binary64 :=
  let '(ip, ni, l) := decimal 0 0 (Str.chars s) in
  let '(m, nf) :=
    match l with
    | "."%char :: l' => let '(m, nf, _) := decimal ip 0 l' in (m, nf)
    | _ => (ip, O)
    end in
  match (ni + nf)%nat with
  | O => S754_nan
  | _ => b64_of_fraction m (10 ^ Z.of_nat nf)
  end.

End Num.

(** ** Exceptions

    A function of the source either returns or throws; what it throws is
    caught by the nearest [try] of its callers. *)

Inductive exn : Type :=
| RangeError
| Error (message : string).

Inductive completion (A : Type) : Type :=
| Normal (a : A)
| Throw (e : exn).
Arguments Normal {A} a.
Arguments Throw {A} e.

#[global] Instance completion_ret : MRet completion := fun _ a => Normal a.
#[global] Instance completion_bind : MBind completion := fun _ _ f m =>
  match m with
  | Normal a => f a
  | Throw e => Throw e
  end.

(** ** The live snapshot *)

Inductive PeerStatus : Type := connected | disconnected | never_connected.

Module Iface.
(** [interface_info]: [publicKey] and [listenPort] are set by later
    lines and are [undefined] until then. *)
Record t : Type := Make {
  name : string;
  publicKey : option string;
  listenPort : option Num.number
}.
End Iface.

Module Live.
(** An entry of [peers].  A field that no line has set is [undefined]:
    [None].  [lastHandshake] is [undefined], [null] or a timestamp. *)
Record peer : Type := Make {
  publicKey : string;
  status : PeerStatus;
  endpoint : option string;
  allowedIps : option string;
  lastHandshake : option (option Z);
  transferRx : option Num.number;
  transferTx : option Num.number
}.

Definition set_publicKey (v : string) (p : peer) : peer :=
  Make v (status p) (endpoint p) (allowedIps p) (lastHandshake p)
    (transferRx p) (transferTx p).
Definition set_status (v : PeerStatus) (p : peer) : peer :=
  Make (publicKey p) v (endpoint p) (allowedIps p) (lastHandshake p)
    (transferRx p) (transferTx p).
Definition set_endpoint (v : string) (p : peer) : peer :=
  Make (publicKey p) (status p) (Some v) (allowedIps p) (lastHandshake p)
    (transferRx p) (transferTx p).
Definition set_allowedIps (v : string) (p : peer) : peer :=
  Make (publicKey p) (status p) (endpoint p) (Some v) (lastHandshake p)
    (transferRx p) (transferTx p).
Definition set_lastHandshake (v : option Z) (p : peer) : peer :=
  Make (publicKey p) (status p) (endpoint p) (allowedIps p) (Some v)
    (transferRx p) (transferTx p).
Definition set_transfer (rx tx : Num.number) (p : peer) : peer :=
  Make (publicKey p) (status p) (endpoint p) (allowedIps p) (lastHandshake p)
    (Some rx) (Some tx).

(** The entry with its handshake left out: the fields that do not
    depend on the clock. *)
Definition without_lastHandshake (p : peer) : peer :=
  Make (publicKey p) (status p) (endpoint p) (allowedIps p) None
    (transferRx p) (transferTx p).

(** The entry with the time of its handshake blanked: whether it has a
    handshake, and every other field. *)
Definition without_handshake_time (p : peer) : peer :=
  Make (publicKey p) (status p) (endpoint p) (allowedIps p)
    (match lastHandshake p with
     | Some (Some _) => Some (Some 0)
     | without_time => without_time
     end)
    (transferRx p) (transferTx p).

(** *** Reading [peers[key]]

    [peers] is a plain object, [{}], used as a map from public key to
    entry.  Reading [peers[key]] for a key that the parser has not
    stored goes on to the prototype of the object, so it finds the
    functions that every object inherits.  The source reads the result
    in two ways only: whether it is truthy, and its fields [status],
    [lastHandshake], [transferRx], [transferTx] and [endpoint]. *)

(** What [peers[key]] evaluates to: an entry; another truthy value (an
    inherited function, a string that is not empty), whose five fields
    are all [undefined]; or [undefined] or another falsy value. *)
Inductive value : Type :=
| Entry (p : peer)
| Truthy
| Falsy.

(** [!!wgPeer] *)
Definition truthy (wgPeer : value) : bool :=
  match wgPeer with
  | Falsy => false
  | _ => true
  end.

(** [wgPeer.f] and [wgPeer?.f] for a field [f] of entries. *)
Definition field {A : Type} (f : peer -> option A) (wgPeer : value) : option A :=
  match wgPeer with
  | Entry p => f p
  | _ => None
  end.

(** The functions of [Object.prototype], by name. *)
Definition object_functions : list string :=
  [ "constructor"; "hasOwnProperty"; "isPrototypeOf"; "propertyIsEnumerable";
    "toLocaleString"; "toString"; "valueOf"; "__defineGetter__";
    "__defineSetter__"; "__lookupGetter__"; "__lookupSetter__" ].

(** [Object.prototype] has the accessor [__proto__] as well in
    ECMAScript; Deno, which this function is written for, removes it.
    [proto_accessor] says which of the two the runtime does.  With the
    accessor, [peers['__proto__'] = entry] stores no property: it makes
    the entry the prototype of [peers], and [peers['__proto__']] reads it
    back.  The slot [__proto__] of the map stands for that prototype
    then, and for a property like any other without the accessor. *)
Definition inherited (proto_accessor : bool) (key : string) : bool :=
  existsb (String.eqb key) object_functions
  || (proto_accessor && String.eqb key "__proto__").

(** Whether an entry has the property [key], and if so whether its
    value is truthy: a string that is not empty, a date (not [null]), a
    number other than [0] and [NaN]. *)
Definition own_property (p : peer) (key : string) : option bool :=
  if String.eqb key "publicKey" then Some (negb (Str.is_empty (publicKey p)))
  else if String.eqb key "status" then Some true
  else if String.eqb key "endpoint"
    then (fun s => negb (Str.is_empty s)) <$> endpoint p
  else if String.eqb key "allowedIps"
    then (fun s => negb (Str.is_empty s)) <$> allowedIps p
  else if String.eqb key "lastHandshake"
    then (fun t => match t with Some _ => true | None => false end)
           <$> lastHandshake p
  else if String.eqb key "transferRx" then Num.truthy <$> transferRx p
  else if String.eqb key "transferTx" then Num.truthy <$> transferTx p
  else None.

(** [peers[key]]: the property of [peers]; else, when an entry has been
    made the prototype, its property; else what [Object.prototype]
    has. *)
Definition get (proto_accessor : bool) (peers : gmap string peer) (key : string)
  : value :=
  match peers !! key with
  | Some p => Entry p
  | None =>
      let through_prototype :=
        if proto_accessor then peers !! "__proto__" ≫= (fun p => own_property p key)
        else None in
      match through_prototype with
      | Some true => Truthy
      | Some false => Falsy
      | None => if inherited proto_accessor key then Truthy else Falsy
      end
  end.
End Live.

(** What [getWireGuardStatus] returns.  [peers] holds what the parser
    has stored, by key; [Live.get] is how the handlers read it. *)
Record WgStatus : Type := MkStatus {
  interface : option Iface.t;
  peers : gmap string Live.peer
}.

(** ** The unit parsers *)

Import Regex.
Local Infix "·" := Seq (at level 41, right associativity).

(** [/(\d+)\s+(second|minute|hour|day)s?\s+ago/] *)
Definition re_duration : re :=
  Group 1 (Plus digit) · Plus space ·
  Group 2 (Alt (Lit "second") (Alt (Lit "minute") (Alt (Lit "hour") (Lit "day")))) ·
  Opt (Lit "s") · Plus space · Lit "ago".

(** [/(\d+)\s+seconds?\s+ago/] and [/(\d+)\s+minutes?\s+ago/] *)
Definition re_seconds : re :=
  Group 1 (Plus digit) · Plus space · Lit "second" · Opt (Lit "s") ·
  Plus space · Lit "ago".
Definition re_minutes : re :=
  Group 1 (Plus digit) · Plus space · Lit "minute" · Opt (Lit "s") ·
  Plus space · Lit "ago".

(** [/transfer:\s+(.+?)\s+received,\s+(.+?)\s+sent/] *)
Definition re_transfer : re :=
  Lit "transfer:" · Plus space · Group 1 (LazyPlus dot) · Plus space ·
  Lit "received," · Plus space · Group 2 (LazyPlus dot) · Plus space ·
  Lit "sent".

(** [/([\d.]+)\s*([KMGT]?i?B)/] *)
Definition re_amount : re :=
  Group 1 (Plus (Class (fun c => Str.is_digit c || Ascii.eqb c "."))) ·
  Star true space ·
  Group 2 (Opt (OneOf "KMGT") · Opt (Lit "i") · Lit "B").

(** The largest time a [Date] holds, in milliseconds either side of the
    epoch; beyond it the date is invalid and [toISOString] throws. *)
Definition max_time : Z := 8640000000000000.

(** [new Date(ms).toISOString()] *)
Definition toISOString (ms : Z) : completion Z :=
  if Z.abs ms <=? max_time then Normal ms else Throw RangeError.

(** The seconds of one matched clause: [parseInt(num)] times the unit. *)
Definition clause_seconds (clause : string) : Z :=
  match match_first re_duration clause with
  | Some m =>
      match group 1 (groups m), group 2 (groups m) with
      | Some num, Some unit =>
          match Num.parseInt num with
          | Num.Int value =>
              if String.eqb unit "second" then value
              else if String.eqb unit "minute" then value * 60
              else if String.eqb unit "hour" then value * 3600
              else if String.eqb unit "day" then value * 86400
              else 0
          | _ => 0
          end
      | _, _ => 0
      end
  | None => 0
  end.

(** [totalSeconds] at the end of the loop of [parseHandshakeTime], when
    the text has a match. *)
Definition total_seconds (handshakeText : string) : option Z :=
  match match_all re_duration handshakeText with
  | Some timeMatch =>
      Some (fold_left (fun totalSeconds clause => totalSeconds + clause_seconds clause)
              timeMatch 0)
  | None => None
  end.

Definition mentions_never (handshakeText : string) : bool :=
  Str.includes handshakeText "Never" || Str.includes handshakeText "never".

(** [parseHandshakeTime]; [now] is what [new Date()] reads. *)
Definition parseHandshakeTime (now : Z) (handshakeText : string)
  : completion (option Z) :=
  if mentions_never handshakeText then Normal None
  else
    match total_seconds handshakeText with
    | Some totalSeconds =>
        t ← toISOString (now - totalSeconds * 1000); mret (Some t)
    | None => Normal None
    end.

(** [isRecentHandshake] *)
Definition isRecentHandshake (handshakeText : string) : bool :=
  if mentions_never handshakeText then false
  else
    let recentMatch :=
      match match_first re_seconds handshakeText with
      | Some m => Some m
      | None => match_first re_minutes handshakeText
      end in
    match recentMatch with
    | Some m =>
        match group 1 (groups m) with
        | Some num =>
            match Num.parseInt num with
            | Num.Int value =>
                if Str.includes (whole m) "minute" then value <=? 3
                else value <=? 180
            | _ => false
            end
        | None => false
        end
    | None => false
    end.

(** The table [multipliers], with [|| 1] for a unit it lacks. *)
Definition multiplier (unit : string) : Z :=
  if String.eqb unit "B" then 1
  else if String.eqb unit "KiB" then 1024
  else if String.eqb unit "MiB" then 1024 * 1024
  else if String.eqb unit "GiB" then 1024 * 1024 * 1024
  else if String.eqb unit "TiB" then 1024 * 1024 * 1024 * 1024
  else if String.eqb unit "KB" then 1000
  else if String.eqb unit "MB" then 1000 * 1000
  else if String.eqb unit "GB" then 1000 * 1000 * 1000
  else if String.eqb unit "TB" then 1000 * 1000 * 1000 * 1000
  else 1.

(** [parseTransferAmount] *)
Definition parseTransferAmount (transferText : string) : Num.number :=
  match match_first re_amount transferText with
  | None => Num.Int 0
  | Some m =>
      match group 1 (groups m), group 2 (groups m) with
      | Some digits, Some unit =>
          let value := Num.parseFloat digits in
          Num.floor (Num.b64_mul value (Num.b64_of_Z (multiplier unit)))
      | _, _ => Num.Int 0
      end
  end.

(** ** The status text parser *)

(** The variables of the loop of [parseWireGuardOutput]. *)
Record ParseState : Type := MkParse {
  interface_info : option Iface.t;
  parsed : gmap string Live.peer;
  currentPeer : option Live.peer
}.

(** [line.split(':')[1].trim()]; every line it is applied to starts
    with a label that ends in a colon, so the piece exists. *)
Definition after_colon (line : string) : string :=
  Str.trim (nth 1 (Str.split line ":") "").

(** [line.split(':').slice(1).join(':').trim()] *)
Definition after_first_colon (line : string) : string :=
  Str.trim (Str.join ":" (tl (Str.split line ":"))).

(** [peers[currentPeer.publicKey] = currentPeer], when a peer is open
    (for the key [__proto__] see [Live.inherited]). *)
Definition flush (st : ParseState) : gmap string Live.peer :=
  match currentPeer st with
  | Some p => <[Live.publicKey p := p]> (parsed st)
  | None => parsed st
  end.

Definition on_peer (f : Live.peer -> Live.peer) (st : ParseState) : ParseState :=
  MkParse (interface_info st) (parsed st) (f <$> currentPeer st).

Definition on_interface (f : Iface.t -> Iface.t) (st : ParseState) : ParseState :=
  MkParse (f <$> interface_info st) (parsed st) (currentPeer st).

(** The body of the loop, for one line. *)
Definition parse_line (now : Z) (st : ParseState) (line : string)
  : completion ParseState :=
  if Str.startsWith line "interface:" then
    mret (MkParse (Some (Iface.Make (after_colon line) None None))
            (parsed st) (currentPeer st))
  else if Str.startsWith line "public key:" then
    match currentPeer st with
    | Some _ => mret (on_peer (Live.set_publicKey (after_colon line)) st)
    | None =>
        mret (on_interface (fun i =>
          Iface.Make (Iface.name i) (Some (after_colon line)) (Iface.listenPort i)) st)
    end
  else if Str.startsWith line "listening port:" then
    mret (on_interface (fun i =>
      Iface.Make (Iface.name i) (Iface.publicKey i)
        (Some (Num.parseInt (after_colon line)))) st)
  else if Str.startsWith line "peer:" then
    mret (MkParse (interface_info st) (flush st)
            (Some (Live.Make (after_colon line) connected None None None None None)))
  else if Str.startsWith line "endpoint:" then
    mret (on_peer (Live.set_endpoint (after_first_colon line)) st)
  else if Str.startsWith line "allowed ips:" then
    mret (on_peer (Live.set_allowedIps (after_colon line)) st)
  else if Str.startsWith line "latest handshake:" then
    match currentPeer st with
    | Some p =>
        let handshakeText := after_first_colon line in
        t ← parseHandshakeTime now handshakeText;
        mret (MkParse (interface_info st) (parsed st)
          (Some (Live.set_status
                   (if isRecentHandshake handshakeText then connected else disconnected)
                   (Live.set_lastHandshake t p))))
    | None => mret st
    end
  else if Str.startsWith line "transfer:" then
    match currentPeer st, match_first re_transfer line with
    | Some p, Some transferMatch =>
        match group 1 (groups transferMatch), group 2 (groups transferMatch) with
        | Some rx, Some tx =>
            mret (on_peer (Live.set_transfer (parseTransferAmount rx)
                                            (parseTransferAmount tx)) st)
        | _, _ => mret st
        end
    | _, _ => mret st
    end
  else mret st.

Fixpoint parse_lines (now : Z) (st : ParseState) (lines : list string)
  : completion ParseState :=
  match lines with
  | [] => mret st
  | line :: lines' => st' ← parse_line now st line; parse_lines now st' lines'
  end.

(** [output.split('\n').map(line => line.trim()).filter(line => line)] *)
Definition lines_of (output : string) : list string :=
  filter (fun line => Str.is_empty line = false)
    (map Str.trim (Str.split output "010"%char)).

(** [parseWireGuardOutput] *)
Definition parseWireGuardOutput (now : Z) (output : string) : completion WgStatus :=
  st ← parse_lines now (MkParse None ∅ None) (lines_of output);
  mret (MkStatus (interface_info st) (flush st)).

(** ** The process invoker *)

(** What [await process.output()] gives for a spawned command. *)
Record CommandOutput : Type := MkOutput {
  success : bool;
  stdout : string;
  stderr : string
}.

(** Running a command: it is spawned and exits, or spawning throws
    (no such binary, no permission). *)
Inductive Command : Type :=
| Exited (output : CommandOutput)
| SpawnFailed (e : exn).

(** [getMockWireGuardStatus]; [now] is what [Date.now()] reads. *)
Definition getMockWireGuardStatus (now : Z) : WgStatus :=
  MkStatus
    (Some (Iface.Make "wg0" (Some "xCi3cBO9Azd7L1jkKUWUVZNC2uEH7HTPY+05GrMkOUE=")
             (Some (Num.Int 51820))))
    (<["mock_peer_key_2" :=
         Live.Make "mock_peer_key_2" disconnected (Some "192.168.1.101:51820")
           (Some "10.7.0.3/32") (Some (Some (now - 300000)))
           (Some (Num.Int 5670)) (Some (Num.Int 8900))]>
     (<["mock_peer_key_1" :=
         Live.Make "mock_peer_key_1" connected (Some "192.168.1.100:51820")
           (Some "10.7.0.2/32") (Some (Some (now - 90000)))
           (Some (Num.Int 1248)) (Some (Num.Int 2456))]> ∅)).

(** [getWireGuardStatus]; [wg_show] is the run of [sudo wg show wg0]. *)
Definition getWireGuardStatus (now : Z) (wg_show : Command) : WgStatus :=
  match wg_show with
  | Exited output =>
      if success output then
        match parseWireGuardOutput now (stdout output) with
        | Normal wgStatus => wgStatus
        | Throw _ => getMockWireGuardStatus now
        end
      else getMockWireGuardStatus now
  | SpawnFailed _ => getMockWireGuardStatus now
  end.

(** ** The record store

    The two tables of the migrations.  A nullable column is an
    [option]; a timestamp is epoch milliseconds.  Both tables carry a
    trigger that runs [update_updated_at_column()] before an update; the
    repository does not define that function, and the embedding leaves
    the trigger out: [updated_at] holds what the handler writes. *)

Module Peers.
(** [public.wireguard_peers] *)
Record row : Type := Make {
  id : string;
  user_id : string;
  name : string;
  public_key : string;
  private_key : string;
  allowed_ips : string;
  endpoint : option string;
  persistent_keepalive : option Z;
  status : PeerStatus;
  last_handshake : option Z;
  transfer_rx : option Z;
  transfer_tx : option Z;
  config_file_path : option string;
  created_at : Z;
  updated_at : Z
}.

(** The object given to [update]: the columns it names, with the value
    for each; a column it does not name keeps its value. *)
Record patch : Type := Patch {
  set_status : option PeerStatus;
  set_last_handshake : option (option Z);
  set_transfer_rx : option (option Z);
  set_transfer_tx : option (option Z);
  set_endpoint : option (option string);
  set_config_file_path : option (option string);
  set_updated_at : option Z
}.

Definition apply (p : patch) (r : row) : row :=
  Make (id r) (user_id r) (name r) (public_key r) (private_key r)
    (allowed_ips r)
    (default (endpoint r) (set_endpoint p))
    (persistent_keepalive r)
    (default (status r) (set_status p))
    (default (last_handshake r) (set_last_handshake p))
    (default (transfer_rx r) (set_transfer_rx p))
    (default (transfer_tx r) (set_transfer_tx p))
    (default (config_file_path r) (set_config_file_path p))
    (created_at r)
    (default (updated_at r) (set_updated_at p)).

(** The row with [updated_at] blanked: every column but that one. *)
Definition without_updated_at (r : row) : row :=
  Make (id r) (user_id r) (name r) (public_key r) (private_key r)
    (allowed_ips r) (endpoint r) (persistent_keepalive r) (status r)
    (last_handshake r) (transfer_rx r) (transfer_tx r) (config_file_path r)
    (created_at r) 0.

(** The row with [last_handshake] and [updated_at] blanked: every
    column that a run does not compute from its clock. *)
Definition without_times (r : row) : row :=
  Make (id r) (user_id r) (name r) (public_key r) (private_key r)
    (allowed_ips r) (endpoint r) (persistent_keepalive r) (status r)
    None (transfer_rx r) (transfer_tx r) (config_file_path r)
    (created_at r) 0.

(** [update(p).eq('id', i)] on the rows. *)
Definition update_where_id (i : string) (p : patch) (rows : list row) : list row :=
  map (fun r => if decide (id r = i) then apply p r else r) rows.

(** [update(p).eq('id', i).eq('user_id', u)] on the rows. *)
Definition update_where_id_user (i u : string) (p : patch) (rows : list row)
  : list row :=
  map (fun r => if decide (id r = i ∧ user_id r = u) then apply p r else r) rows.
End Peers.

Inductive ServerStatus : Type := running | stopped | error.

Module Server.
(** [public.wireguard_server] *)
Record row : Type := Make {
  id : string;
  interface_name : string;
  listen_port : Z;
  private_key : string;
  public_key : string;
  network_subnet : string;
  dns_servers : option (list string);
  endpoint : option string;
  status : ServerStatus;
  created_at : Z;
  updated_at : Z
}.

(** The object that [syncWireGuardStatus] gives to [update].  A key
    whose value is [undefined] is left out of the request; a number
    that is not finite is sent as [null]. *)
Record patch : Type := Patch {
  set_status : ServerStatus;
  set_public_key : option string;
  set_listen_port : option (option Z);
  set_updated_at : Z
}.

(** The values of a column of type [INTEGER]: 32 bits, signed. *)
Definition is_integer (z : Z) : bool := (- 2 ^ 31 <=? z) && (z <? 2 ^ 31).

(** The row after the update; [None] when the update breaks
    [listen_port INTEGER NOT NULL]: the port is [null], or a number
    that the type does not hold. *)
Definition apply (p : patch) (r : row) : option row :=
  let updated (port : Z) :=
    Make (id r) (interface_name r) port (private_key r)
      (default (public_key r) (set_public_key p))
      (network_subnet r) (dns_servers r) (endpoint r)
      (set_status p) (created_at r) (set_updated_at p) in
  match set_listen_port p with
  | Some None => None
  | Some (Some port) => if is_integer port then Some (updated port) else None
  | None => Some (updated (listen_port r))
  end.

(** [update(p).eq('id', i)]: the statement fails as a whole, and
    changes nothing, when a row it reaches breaks a constraint. *)
Definition update_where_id (i : string) (p : patch) (rows : list row)
  : option (list row) :=
  mapM (fun r => if decide (id r = i) then apply p r else Some r) rows.
End Server.

Record Database : Type := MkDb {
  wireguard_peers : list Peers.row;
  wireguard_server : list Server.row
}.

(** How a write to the store ends.  The client resolves to
    [{ data, error }]: [Applied] is [error === null], [Rejected] is
    [error] set and nothing written, the way every call of the source
    that reads [error] expects failures.  [Threw] is the awaited call
    rejecting, which is what a [try] around it catches. *)
Inductive StoreOutcome : Type :=
| Applied
| Rejected (message : string)
| Threw (e : exn).

(** Why the store refuses an insert. *)
Inductive DbError : Type :=
| NotNullViolation (column : string)
| UniqueViolation (constraint : string).

(** The [Error]s that the handlers throw, by the fixed text their
    message starts with; [detail] is the message of the store that
    follows it.  [Uncaught] is an exception of a callee that no handler
    catches. *)
Inductive Failure : Type :=
| FailedToCreatePeer (cause : DbError)
| ServerConfigurationNotFound
| PeerNotFound
| FailedToUpdatePeerStatus (detail : string)
| FailedToFetchPeers (detail : string)
| Uncaught (e : exn).

(** What a handler answers: the JSON body with status 200, or
    [{ error: message }] with status 500.  Every failure is a plain
    [Error]; the source has no other error type. *)
Inductive Response (A : Type) : Type :=
| Ok (body : A)
| ServerError (failure : Failure).
Arguments Ok {A} body.
Arguments ServerError {A} failure.

(** ** The reconciliation engine *)

(** What the run of a handler meets outside the store's contents.  A
    run reads the clock several times; the embedding gives it one
    reading. *)
Record Env : Type := MkEnv {
  now : Z;                               (* the clock *)
  wg_show : Command;                     (* sudo wg show wg0 *)
  server_update : StoreOutcome;          (* the update of wireguard_server *)
  peers_select : option string;          (* dbError.message of the select *)
  peer_update : string -> StoreOutcome;  (* the update of the peer row of an id *)
  proto_accessor : bool                  (* the runtime, see Live.inherited *)
}.

(** A row of [select('id, public_key, name')]. *)
Record PeerRef : Type := MkRef {
  ref_id : string;
  ref_public_key : string;
  ref_name : string
}.

Definition select_refs (rows : list Peers.row) : list PeerRef :=
  map (fun r => MkRef (Peers.id r) (Peers.public_key r) (Peers.name r)) rows.

(** [x || null] for a string: the empty string is falsy. *)
Definition string_or_null (x : option string) : option string :=
  match x with
  | Some s => if Str.is_empty s then None else Some s
  | None => None
  end.

(** [x || null] for a timestamp: [undefined] and [null] are falsy, a
    printed date never is. *)
Definition timestamp_or_null (x : option (option Z)) : option Z :=
  match x with
  | Some (Some t) => Some t
  | _ => None
  end.

(** [updateData] of the loop, for [wgPeer = wgStatus.peers[key]].  A
    [status] that is [undefined] is left out of the request. *)
Definition updateData (now : Z) (wgPeer : Live.value) : Peers.patch :=
  Peers.Patch
    (if Live.truthy wgPeer then Live.field (fun p => Some (Live.status p)) wgPeer
     else Some disconnected)
    (Some (timestamp_or_null (Live.field Live.lastHandshake wgPeer)))
    (Some (Num.to_column
             (Num.or_default (Live.field Live.transferRx wgPeer) (Num.Int 0))))
    (Some (Num.to_column
             (Num.or_default (Live.field Live.transferTx wgPeer) (Num.Int 0))))
    (Some (string_or_null (Live.field Live.endpoint wgPeer)))
    None
    (Some now).

(** The loop over [dbPeers]: the rows and [updatedCount] after it. *)
Fixpoint sync_peers (env : Env) (wgStatus : WgStatus) (dbPeers : list PeerRef)
    (rows : list Peers.row) (updatedCount : Z) : list Peers.row * Z :=
  match dbPeers with
  | [] => (rows, updatedCount)
  | dbPeer :: dbPeers' =>
      let wgPeer :=
        Live.get (proto_accessor env) (peers wgStatus) (ref_public_key dbPeer) in
      let data := updateData (now env) wgPeer in
      match peer_update env (ref_id dbPeer) with
      | Applied =>
          sync_peers env wgStatus dbPeers'
            (Peers.update_where_id (ref_id dbPeer) data rows) (updatedCount + 1)
      | Rejected _ =>
          sync_peers env wgStatus dbPeers' rows (updatedCount + 1)
      | Threw _ =>
          sync_peers env wgStatus dbPeers' rows updatedCount
      end
  end.

(** The body of the answer of [syncWireGuardStatus]. *)
Record SyncResult : Type := MkSync {
  sync_success : bool;
  sync_interface : option Iface.t;
  peersUpdated : Z
}.

(** The object given to the update of [wireguard_server]. *)
Definition serverData (now : Z) (wgStatus : WgStatus) : Server.patch :=
  Server.Patch
    (match interface wgStatus with Some _ => running | None => stopped end)
    (interface wgStatus ≫= Iface.publicKey)
    (Num.to_column <$> (interface wgStatus ≫= Iface.listenPort))
    now.

(** The server rows after [if (existingServer) { await ...update(...) }];
    the result of the update is not read. *)
Definition sync_server (env : Env) (wgStatus : WgStatus) (rows : list Server.row)
  : completion (list Server.row) :=
  match head rows with
  | Some existingServer =>
      match server_update env with
      | Applied =>
          mret (default rows
                  (Server.update_where_id (Server.id existingServer)
                     (serverData (now env) wgStatus) rows))
      | Rejected _ => mret rows
      | Threw e => Throw e
      end
  | None => mret rows
  end.

(** [syncWireGuardStatus]: the store after the run, and the answer. *)
Definition syncWireGuardStatus (env : Env) (db : Database)
  : Database * Response SyncResult :=
  let wgStatus := getWireGuardStatus (now env) (wg_show env) in
  match sync_server env wgStatus (wireguard_server db) with
  | Throw e => (db, ServerError (Uncaught e))
  | Normal servers =>
      match peers_select env with
      | Some dbError =>
          (MkDb (wireguard_peers db) servers,
           ServerError (FailedToFetchPeers dbError))
      | None =>
          let dbPeers := select_refs (wireguard_peers db) in
          let '(rows, updatedCount) :=
            sync_peers env wgStatus dbPeers (wireguard_peers db) 0 in
          (MkDb rows servers,
           Ok (MkSync true (interface wgStatus) updatedCount))
      end
  end.

(** ** The status of one peer *)

(** [rows.single()]: the row when there is exactly one. *)
Definition single {A : Type} (rows : list A) : option A :=
  match rows with
  | [r] => Some r
  | _ => None
  end.

Definition owned_by (peerId userId : string) (r : Peers.row) : bool :=
  bool_decide (Peers.id r = peerId ∧ Peers.user_id r = userId).

(** The two objects that [getPeerStatus] gives to [update]. *)
Definition absentData : Peers.patch :=
  Peers.Patch (Some disconnected) (Some None) None None None None None.

Definition presentData (peerStatus : Live.value) : Peers.patch :=
  Peers.Patch
    (Live.field (fun p => Some (Live.status p)) peerStatus)
    (Live.field Live.lastHandshake peerStatus)
    (Num.to_column <$> Live.field Live.transferRx peerStatus)
    (Num.to_column <$> Live.field Live.transferTx peerStatus)
    (Some <$> Live.field Live.endpoint peerStatus)
    None
    None.

(** The code of the store's error for a [single()] that does not find
    exactly one row; [getServerConfig] names it. *)
Definition not_one_row : string := "PGRST116".

(** [getPeerStatus(userId, { peerId })].  The update answers with the
    rows it has changed, [select().single()].  When [peerStatus] is
    truthy and no entry, every field of the update is [undefined] and
    the request names no column: whatever the store answers then, no
    row changes. *)
Definition getPeerStatus (env : Env) (userId peerId : string) (db : Database)
  : Database * Response Peers.row :=
  match single (List.filter (owned_by peerId userId) (wireguard_peers db)) with
  | None => (db, ServerError PeerNotFound)
  | Some peerData =>
      let wgStatus := getWireGuardStatus (now env) (wg_show env) in
      let peerStatus :=
        Live.get (proto_accessor env) (peers wgStatus) (Peers.public_key peerData) in
      let data :=
        if Live.truthy peerStatus then presentData peerStatus else absentData in
      match peer_update env peerId with
      | Applied =>
          let rows := Peers.update_where_id_user peerId userId data (wireguard_peers db) in
          match single (List.filter (owned_by peerId userId) rows) with
          | Some peer => (MkDb rows (wireguard_server db), Ok peer)
          | None =>
              (MkDb rows (wireguard_server db),
               ServerError (FailedToUpdatePeerStatus not_one_row))
          end
      | Rejected detail => (db, ServerError (FailedToUpdatePeerStatus detail))
      | Threw e => (db, ServerError (Uncaught e))
      end
  end.

(** ** The peer lifecycle: [createPeer] *)

(** The fields of [params] that [createPeer] reads; a field the request
    lacks is [undefined]. *)
Record CreateParams : Type := MkParams {
  param_name : option string;
  param_allowedIps : option string
}.

(** What the run of [createPeer] meets: the key pair it generates, and
    in the store the id and the time given to a new row and the outcome
    of the update of [config_file_path]. *)
Record CreateEnv : Type := MkCreateEnv {
  generated_private_key : string;
  generated_public_key : string;
  generated_id : string;
  inserted_at : Z;
  path_update : StoreOutcome
}.

(** [allowedIps || '10.0.0.2/32'] *)
Definition allowed_ips_or_default (allowedIps : option string) : string :=
  default "10.0.0.2/32" (string_or_null allowedIps).

(** [insert({ user_id, name, public_key, private_key, allowed_ips })]:
    the columns left out take their defaults; the constraints are
    [name TEXT NOT NULL], the primary key, [UNIQUE(name, user_id)] and
    [wireguard_peers_public_key_unique]. *)
Definition insert_peer (cenv : CreateEnv) (userId : string)
    (name : option string) (allowed_ips : string) (rows : list Peers.row)
  : DbError + Peers.row :=
  match name with
  | None => inl (NotNullViolation "name")
  | Some name =>
      if existsb (fun r => bool_decide (Peers.id r = generated_id cenv)) rows
      then inl (UniqueViolation "wireguard_peers_pkey")
      else if existsb (fun r => bool_decide (Peers.name r = name ∧ Peers.user_id r = userId)) rows
      then inl (UniqueViolation "wireguard_peers_name_user_id_key")
      else if existsb (fun r => bool_decide (Peers.public_key r = generated_public_key cenv)) rows
      then inl (UniqueViolation "wireguard_peers_public_key_unique")
      else
        inr (Peers.Make (generated_id cenv) userId name
               (generated_public_key cenv) (generated_private_key cenv)
               allowed_ips None (Some 25) never_connected None (Some 0) (Some 0)
               None (inserted_at cenv) (inserted_at cenv))
  end.

Definition nl : string := String "010"%char EmptyString.

(** The text of [generatePeerConfig], for the server row it found. *)
Definition peerConfig (peer : Peers.row) (serverConfig : Server.row) : string :=
  let dns :=
    match Server.dns_servers serverConfig with
    | Some l => let j := Str.join ", " l in
                if Str.is_empty j then "1.1.1.1, 8.8.8.8" else j
    | None => "1.1.1.1, 8.8.8.8"
    end in
  let endpoint :=
    default "your-server.example.com:51820"
      (string_or_null (Server.endpoint serverConfig)) in
  let keepalive :=
    match Peers.persistent_keepalive peer with
    | Some 0 | None => 25
    | Some k => k
    end in
  "[Interface]" ++ nl ++
  "PrivateKey = " ++ Peers.private_key peer ++ nl ++
  "Address = " ++ Peers.allowed_ips peer ++ nl ++
  "DNS = " ++ dns ++ nl ++
  nl ++
  "[Peer]" ++ nl ++
  "PublicKey = " ++ Server.public_key serverConfig ++ nl ++
  "Endpoint = " ++ endpoint ++ nl ++
  "AllowedIPs = 0.0.0.0/0" ++ nl ++
  "PersistentKeepalive = " ++ pretty keepalive.

(** The body of the answer of [createPeer]. *)
Record CreateResult : Type := MkCreated {
  created_peer : Peers.row;
  configContent : string
}.

Definition configPath (name : string) : string := "/root/" ++ name ++ ".conf".

(** [createPeer(userId, params)].  Writing the file and adding the peer
    to the interface sit in a [try] of their own whose [catch] only
    logs: they change neither the store nor the answer. *)
Definition createPeer (cenv : CreateEnv) (userId : string) (params : CreateParams)
    (db : Database) : Database * Response CreateResult :=
  match insert_peer cenv userId (param_name params)
          (allowed_ips_or_default (param_allowedIps params)) (wireguard_peers db) with
  | inl cause => (db, ServerError (FailedToCreatePeer cause))
  | inr peer =>
      let inserted := MkDb (wireguard_peers db ++ [peer])%list (wireguard_server db) in
      match head (wireguard_server db) with
      | None => (inserted, ServerError ServerConfigurationNotFound)
      | Some serverConfig =>
          let content := peerConfig peer serverConfig in
          let path :=
            Peers.Patch None None None None None
              (Some (Some (configPath (Peers.name peer)))) None in
          match path_update cenv with
          | Applied =>
              (MkDb (Peers.update_where_id (Peers.id peer) path (wireguard_peers inserted))
                 (wireguard_server db),
               Ok (MkCreated peer content))
          | Rejected _ => (inserted, Ok (MkCreated peer content))
          | Threw e => (inserted, ServerError (Uncaught e))
          end
      end
  end.


(** ** What the specification says of a duration

    Following the words of the specification, not the code: a duration
    is one or more clauses [<int> (second|minute|hour|day)s?], joined by
    commas or spaces and closed by [ago]; it resolves to the sum of all
    its clauses, and is recent when that sum is at most 180 seconds. *)

Definition re_spec_clause : re :=
  Group 1 (Plus digit) · Plus space ·
  Group 2 (Alt (Lit "second") (Alt (Lit "minute") (Alt (Lit "hour") (Lit "day")))) ·
  Opt (Lit "s").

Definition spec_clause_seconds (clause : string) : Z :=
  match match_first re_spec_clause clause with
  | Some m =>
      match group 1 (groups m), group 2 (groups m) with
      | Some num, Some unit =>
          match Num.parseInt num with
          | Num.Int value =>
              if String.eqb unit "second" then value
              else if String.eqb unit "minute" then value * 60
              else if String.eqb unit "hour" then value * 3600
              else value * 86400
          | _ => 0
          end
      | _, _ => 0
      end
  | None => 0
  end.

Definition spec_resolved_seconds (text : string) : option Z :=
  if mentions_never text then None
  else
    match match_all re_spec_clause text with
    | Some clauses =>
        Some (fold_left (fun total clause => total + spec_clause_seconds clause)
                clauses 0)
    | None => None
    end.

Definition spec_isRecent (text : string) : bool :=
  match spec_resolved_seconds text with
  | Some total => total <=? 180
  | None => false
  end.

(** ** The loop of the reconciler, row by row *)

(** What one pass of the loop does to a row, for the entry [d] of
    [dbPeers]. *)
Definition step (env : Env) (wgStatus : WgStatus) (d : PeerRef) (r : Peers.row)
  : Peers.row :=
  match peer_update env (ref_id d) with
  | Applied =>
      Peers.apply
        (updateData (now env)
           (Live.get (proto_accessor env) (peers wgStatus) (ref_public_key d))) r
  | _ => r
  end.

(** What the whole loop does to a row. *)
Definition sync_row (env : Env) (wgStatus : WgStatus) (r : Peers.row) : Peers.row :=
  step env wgStatus (MkRef (Peers.id r) (Peers.public_key r) (Peers.name r)) r.

Definition reached_by (env : Env) (wgStatus : WgStatus) (dbPeers : list PeerRef)
    (r : Peers.row) : Peers.row :=
  match find (fun d => bool_decide (ref_id d = Peers.id r)) dbPeers with
  | Some d => step env wgStatus d r
  | None => r
  end.

(** The passes that reach [updatedCount++]. *)
Definition counted (env : Env) (d : PeerRef) : bool :=
  match peer_update env (ref_id d) with
  | Threw _ => false
  | _ => true
  end.

(** ** Two runs of the status query *)

(** Whether [getWireGuardStatus] answers with the fallback: the
    command fails, or the parser throws on its output. *)
Definition falls_back (now : Z) (wg_show : Command) : bool :=
  match wg_show with
  | Exited output =>
      if success output then
        match parseWireGuardOutput now (stdout output) with
        | Normal _ => false
        | Throw _ => true
        end
      else true
  | SpawnFailed _ => true
  end.

(** Two states of the parser that differ at most in the times of
    handshakes. *)
Definition same_but_times (st1 st2 : ParseState) : Prop :=
  interface_info st1 = interface_info st2 /\
  Live.without_handshake_time <$> parsed st1
    = Live.without_handshake_time <$> parsed st2 /\
  Live.without_handshake_time <$> currentPeer st1
    = Live.without_handshake_time <$> currentPeer st2.

Definition value_without_time (wgPeer : Live.value) : Live.value :=
  match wgPeer with
  | Live.Entry p => Live.Entry (Live.without_handshake_time p)
  | _ => wgPeer
  end.

(** ** Texts and stores of the examples *)

(** What [wg show] prints for a handshake of more than an hour ago; the
    comment in [parseHandshakeTime] quotes it. *)
Definition compound_handshake : string := "1 hour, 21 minutes, 2 seconds ago".

Definition sample_output : string :=
  Str.join nl
    [ "interface: wg0";
      "public key: SERVERKEY";
      "listening port: 51820";
      "peer: PEERKEY1";
      "endpoint: 1.2.3.4:51820";
      "allowed ips: 10.7.0.2/32";
      "latest handshake: 10 seconds ago";
      "transfer: 1.00 MiB received, 500.00 KiB sent" ].

Definition sample_peer (lastHandshake : option Z) : Live.peer :=
  Live.Make "PEERKEY1" connected (Some "1.2.3.4:51820") (Some "10.7.0.2/32")
    (Some lastHandshake) (Some (Num.Int 1048576)) (Some (Num.Int 512000)).

(** A peer row with values in every column that the reconciler writes. *)
Definition peer_row (i key : string) : Peers.row :=
  Peers.Make i "user-1" ("peer-" ++ i) key "PRIVATEKEY" "10.7.0.2/32"
    (Some "203.0.113.9:51820") (Some 25) connected (Some 1699999990000)
    (Some 4096) (Some 8192) (Some ("/root/peer-" ++ i ++ ".conf"))
    1690000000000 1699999990000.

Definition three_peers : list Peers.row :=
  [peer_row "1" "KEY1"; peer_row "2" "KEY2"; peer_row "3" "KEY3"].

(** Two rows, the second with a public key that is the name of a
    function every object inherits.  [updatePeer] writes the columns
    that the request names, [public_key] among them. *)
Definition named_peers : list Peers.row :=
  [peer_row "1" "KEY1"; peer_row "2" "constructor"].

Definition server_row : Server.row :=
  Server.Make "server-1" "wg0" 51820 "SERVERPRIVATE" "OLDKEY" "10.7.0.1/24"
    (Some ["1.1.1.1"; "8.8.8.8"]) (Some "vpn.example.com:51820") stopped
    1690000000000 1690000000000.

(** A peer whose last handshake is so old that its time is a [Date]
    at the second clock of the example and none one second earlier. *)
Definition ancient_output : string :=
  Str.join nl
    [ "interface: wg0";
      "peer: KEY1";
      "endpoint: 1.2.3.4:51820";
      "latest handshake: 8641700000001 seconds ago" ].

(** An interface that is up and has no peer. *)
Definition quiet_output : string :=
  Str.join nl ["interface: wg0"; "public key: SERVERKEY"; "listening port: 51820"].

Definition quiet_interface : Iface.t :=
  Iface.Make "wg0" (Some "SERVERKEY") (Some (Num.Int 51820)).

(** A run at [now], on Deno, where [wg show] prints [quiet_output] and
    the store answers the update of the peer of an id by [outcome]. *)
Definition quiet_env (now : Z) (outcome : string -> StoreOutcome) : Env :=
  MkEnv now (Exited (MkOutput true quiet_output "")) Applied None outcome false.

Definition all_applied (i : string) : StoreOutcome := Applied.

(** The store refuses the update of peer 2 and says so in [error]. *)
Definition second_rejected (i : string) : StoreOutcome :=
  if decide (i = "2") then Rejected "canceling statement due to statement timeout"
  else Applied.

(** The update of peer 2 throws. *)
Definition second_threw (i : string) : StoreOutcome :=
  if decide (i = "2") then Threw (Error "connection reset") else Applied.

Definition create_env : CreateEnv :=
  MkCreateEnv "PRIVATEKEY" "PUBLICKEY" "peer-9" 1700000000000 Applied.

(** ** Definitions for the further properties *)

(** *** One clause of a duration *)

(** What follows the number in the three expressions for durations. *)
Definition duration_rest : re :=
  Plus space ·
  Group 2 (Alt (Lit "second") (Alt (Lit "minute") (Alt (Lit "hour") (Lit "day")))) ·
  Opt (Lit "s") · Plus space · Lit "ago".
Definition seconds_rest : re :=
  Plus space · Lit "second" · Opt (Lit "s") · Plus space · Lit "ago".
Definition minutes_rest : re :=
  Plus space · Lit "minute" · Opt (Lit "s") · Plus space · Lit "ago".

(** [needs w r]: wherever [r] matches, the input holds the text [w]. *)
Definition needs (w : string) (r : re) : Prop :=
  forall (R : Type) s c (k : list ascii -> captures -> option R) x,
    run r s c k = Some x -> Str.includes_list (Str.chars w) s = true.

(** A number written in decimal digits, and its value. *)
Definition decimal_digits (ds : list ascii) : Prop :=
  ds <> [] /\ Forall (fun c => Str.is_digit c = true) ds.

Definition decimal_value (ds : list ascii) : Z :=
  fold_left (fun acc c => acc * 10 + Num.digit_value c) ds 0.

Inductive TimeUnit : Type := Second | Minute | Hour | Day.

Definition unit_name (u : TimeUnit) : string :=
  match u with
  | Second => "second" | Minute => "minute" | Hour => "hour" | Day => "day"
  end.

Definition unit_seconds (u : TimeUnit) : Z :=
  match u with
  | Second => 1 | Minute => 60 | Hour => 3600 | Day => 86400
  end.

(** The text of one clause, as [wg show] prints it: the number, a
    space, the unit with or without its plural, a space, [ago]. *)
Definition clause_tail (u : TimeUnit) (plural : bool) : string :=
  " " ++ unit_name u ++ (if plural then "s" else "") ++ " ago".

Definition clause_text (ds : list ascii) (u : TimeUnit) (plural : bool) : string :=
  Str.unchars ds ++ clause_tail u plural.

Definition starts_with_digit (s : list ascii) : bool :=
  match s with
  | a :: _ => Str.is_digit a
  | [] => false
  end.

(** *** Signs *)

(** A double that is not below zero: its sign bit is clear, or it is
    [NaN]. *)
Definition sign_clear (x : Num.binary64) : Prop :=
  match x with
  | S754_zero s | S754_infinity s | S754_finite s _ _ => s = false
  | S754_nan => True
  end.

(** A number that is not below zero. *)
Definition not_negative (x : Num.number) : Prop :=
  match x with
  | Num.Int z => 0 <= z
  | Num.NaN => True
  | Num.Infinity negative => negative = false
  end.

(** *** Snapshots *)

(** What every entry of a snapshot satisfies. *)
Definition sound_peer (p : Live.peer) : Prop :=
  Live.status p <> never_connected /\
  (forall n, Live.transferRx p = Some n -> not_negative n) /\
  (forall n, Live.transferTx p = Some n -> not_negative n).

(** What every snapshot satisfies: an entry sits under its own key. *)
Definition sound_peers (m : gmap string Live.peer) : Prop :=
  forall key p, m !! key = Some p -> Live.publicKey p = key /\ sound_peer p.

Definition sound_state (st : ParseState) : Prop :=
  sound_peers (parsed st) /\
  forall p, currentPeer st = Some p -> sound_peer p.

(** The lines that open a peer. *)
Definition peer_lines (lines : list string) : nat :=
  length (List.filter (fun line => Str.startsWith line "peer:") lines).

(** The entries that a state of the parser holds, the open one counted. *)
Definition held (st : ParseState) : nat :=
  (size (parsed st) + match currentPeer st with Some _ => 1 | None => 0 end)%nat.

(** A text of white space only. *)
Definition blank (l : list ascii) : Prop := Forall (fun c => Str.is_space c = true) l.

Definition no_colon (s : string) : Prop :=
  Forall (fun c => c <> ":"%char) (Str.chars s).

(** *** Rows *)

(** The columns that the reconciler does not own: who the peer is,
    its keys and address, and where its configuration file is. *)
Definition identity (r : Peers.row)
  : string * string * string * string * string * string * option Z
    * option string * Z :=
  (Peers.id r, Peers.user_id r, Peers.name r, Peers.public_key r,
   Peers.private_key r, Peers.allowed_ips r, Peers.persistent_keepalive r,
   Peers.config_file_path r, Peers.created_at r).

(** The pair that [UNIQUE(name, user_id)] is about. *)
Definition named (r : Peers.row) : string * string := (Peers.name r, Peers.user_id r).

(** ** The peer lifecycle: [deletePeer] *)

(** What a handler asks for outside the store: the commands it starts
    and the files it removes, whether or not they succeed.  What it
    prints on the console is left out. *)
Inductive Effect : Type :=
| Run (command : string) (args : list string)
| RemoveFile (path : string).

(** The arguments of the command of [removePeerFromInterface]. *)
Definition remove_args (publicKey : string) : list string :=
  ["wg"; "set"; "wg0"; "peer"; publicKey; "remove"].

(** [removePeerFromInterface(publicKey)], for the run of its command:
    it throws when the command cannot be spawned or exits without
    success. *)
Definition removePeerFromInterface (run : Command) : completion unit :=
  match run with
  | Exited output =>
      if success output then Normal tt
      else Throw (Error ("Failed to remove peer from interface: " ++ stderr output))
  | SpawnFailed e => Throw e
  end.

(** What the run of [deletePeer] meets: the run of [wg set ... remove],
    how [Deno.remove] ends, and the outcome of the delete in the
    store. *)
Record DeleteEnv : Type := MkDeleteEnv {
  wg_remove : Command;
  file_remove : completion unit;
  row_delete : StoreOutcome
}.

(** What [deletePeer] answers: [{ success: true }], or one of its
    errors. *)
Inductive DeleteAnswer : Type :=
| Deleted
| DeletePeerNotFound
| FailedToDeletePeer (detail : string)
| DeleteUncaught (e : exn).

Definition has_id (i : string) (r : Peers.row) : bool :=
  bool_decide (Peers.id r = i).

(** [deletePeer(userId, { id })]: the store after the run, the answer,
    and what was done outside the store.  The select reads [id] alone;
    [userId] is not used.  Both clean-up steps sit in a [try] whose
    [catch] only logs. *)
Definition deletePeer (denv : DeleteEnv) (userId id : string) (db : Database)
  : Database * DeleteAnswer * list Effect :=
  match single (List.filter (has_id id) (wireguard_peers db)) with
  | None => (db, DeletePeerNotFound, [])
  | Some peer =>
      let unlinked :=
        match removePeerFromInterface (wg_remove denv) with
        | Normal _ | Throw _ => [Run "sudo" (remove_args (Peers.public_key peer))]
        end in
      let removed :=
        match string_or_null (Peers.config_file_path peer) with
        | Some path =>
            match file_remove denv with
            | Normal _ | Throw _ => [RemoveFile path]
            end
        | None => []
        end in
      let effects := (unlinked ++ removed)%list in
      match row_delete denv with
      | Applied =>
          (MkDb (List.filter (fun r => negb (has_id id r)) (wireguard_peers db))
             (wireguard_server db),
           Deleted, effects)
      | Rejected detail => (db, FailedToDeletePeer detail, effects)
      | Threw e => (db, DeleteUncaught e, effects)
      end
  end.

(** ** Key generation *)

(** The 64 characters that the simulated keys are drawn from. *)
Definition key_alphabet : string :=
  "ABCDEFGHIJKLMNOPQRSTUVWXYZabcdefghijklmnopqrstuvwxyz0123456789+/".

(** [chars.charAt(j)]: the character at [j], the empty string beyond the
    end. *)
Definition charAt (s : string) (j : nat) : string :=
  match String.get j s with
  | Some c => String c ""
  | None => ""
  end.

(** The loop of the fallback of [generatePrivateKey] and
    [generatePublicKey]: [draw i] is
    [Math.floor(Math.random() * chars.length)] at the pass [i]. *)
Fixpoint simulated_loop (draw : nat -> nat) (i passes : nat) (result : string)
  : string :=
  match passes with
  | O => result
  | S passes' =>
      simulated_loop draw (S i) passes' (result ++ charAt key_alphabet (draw i))
  end.

(** What the [catch] of both key generators returns. *)
Definition simulated_key (draw : nat -> nat) : string :=
  simulated_loop draw 0 44 "" ++ "=".

(** [generatePrivateKey()], for the run of [wg genkey]: its trimmed
    output, or a simulated key when the command fails. *)
Definition generatePrivateKey (genkey : Command) (draw : nat -> nat) : string :=
  match genkey with
  | Exited output =>
      if success output then Str.trim (stdout output) else simulated_key draw
  | SpawnFailed _ => simulated_key draw
  end.

(** [generatePublicKey(privateKey)], for the run of
    [sh -c 'echo "<privateKey>" | wg pubkey']: the same, with draws of
    its own. *)
Definition generatePublicKey (pubkey : Command) (draw : nat -> nat) : string :=
  match pubkey with
  | Exited output =>
      if success output then Str.trim (stdout output) else simulated_key draw
  | SpawnFailed _ => simulated_key draw
  end.

(** A command that did not give its output: it could not be spawned, or
    exited without success. *)
Definition failed (command : Command) : Prop :=
  match command with
  | Exited output => success output = false
  | SpawnFailed _ => True
  end.

(** ** The request handler *)

(** [s.replace(p, '')] for a text [p]: the first occurrence of [p] is
    taken out. *)
Fixpoint remove_first (p l : list ascii) : list ascii :=
  if Str.is_prefix p l then drop (length p) l
  else
    match l with
    | [] => []
    | c :: l' => c :: remove_first p l'
    end.

(** [authHeader.replace('Bearer ', '')] *)
Definition bearer_token (authHeader : string) : string :=
  Str.unchars (remove_first (Str.chars "Bearer ") (Str.chars authHeader)).

(** What [serve] reads of a request: its method, its body when it is
    JSON for an object (the action, when the object has one that is a
    string, and the other fields), and its [Authorization] header. *)
Record Request (P : Type) : Type := MkRequest {
  method : string;
  json : option (option string * P);
  authorization : option string
}.
Arguments MkRequest {P} method json authorization.
Arguments method {P} r.
Arguments json {P} r.
Arguments authorization {P} r.

(** Why [serve] turns a request down before any handler runs. *)
Inductive Refusal : Type :=
| BadBody
| AuthorizationHeaderRequired
| InvalidAuthentication
| UnknownAction (action : option string).

(** What [serve] answers: the empty answer to a preflight, the answer
    of a handler, or a refusal (status 500, [{ error: message }]). *)
Inductive Served (A : Type) : Type :=
| Preflight
| Handled (answer : A)
| Refused (reason : Refusal).
Arguments Preflight {A}.
Arguments Handled {A} answer.
Arguments Refused {A} reason.

(** The eight handlers, as [serve] calls them: with the caller's id
    and the fields of the request where the source passes them.  Each
    gives the store after its run and its answer (its response, or the
    error it throws, which [serve] turns into a response). *)
Record Handlers (P A : Type) : Type := MkHandlers {
  run_generateKeys : Database -> Database * A;
  run_createPeer : string -> P -> Database -> Database * A;
  run_updatePeer : string -> P -> Database -> Database * A;
  run_deletePeer : string -> P -> Database -> Database * A;
  run_getServerConfig : Database -> Database * A;
  run_updateServerStatus : P -> Database -> Database * A;
  run_getPeerStatus : string -> P -> Database -> Database * A;
  run_syncWireGuardStatus : Database -> Database * A
}.
Arguments run_generateKeys {P A} h.
Arguments run_createPeer {P A} h.
Arguments run_updatePeer {P A} h.
Arguments run_deletePeer {P A} h.
Arguments run_getServerConfig {P A} h.
Arguments run_updateServerStatus {P A} h.
Arguments run_getPeerStatus {P A} h.
Arguments run_syncWireGuardStatus {P A} h.

(** The [switch] on the action, for an action that is a string; any
    other value goes to [default]. *)
Definition dispatch {P A : Type} (h : Handlers P A) (action user : string) (params : P)
  : option (Database -> Database * A) :=
  if String.eqb action "generate_keys" then Some (run_generateKeys h)
  else if String.eqb action "create_peer" then Some (run_createPeer h user params)
  else if String.eqb action "update_peer" then Some (run_updatePeer h user params)
  else if String.eqb action "delete_peer" then Some (run_deletePeer h user params)
  else if String.eqb action "get_server_config" then Some (run_getServerConfig h)
  else if String.eqb action "update_server_status"
    then Some (run_updateServerStatus h params)
  else if String.eqb action "get_peer_status" then Some (run_getPeerStatus h user params)
  else if String.eqb action "sync_wireguard_status"
    then Some (run_syncWireGuardStatus h)
  else None.

(** The function given to [serve]: the store after the request, and the
    answer.  [getUser] is the check of a token by
    [supabase.auth.getUser]: the id of the user, when it names one. *)
Definition serve {P A : Type} (getUser : string -> option string) (h : Handlers P A)
    (req : Request P) (db : Database) : Database * Served A :=
  if String.eqb (method req) "OPTIONS" then (db, Preflight)
  else
    match json req with
    | None => (db, Refused BadBody)
    | Some (action, params) =>
        match string_or_null (authorization req) with
        | None => (db, Refused AuthorizationHeaderRequired)
        | Some authHeader =>
            match getUser (bearer_token authHeader) with
            | None => (db, Refused InvalidAuthentication)
            | Some user =>
                match action ≫= (fun a => dispatch h a user params) with
                | Some run =>
                    let '(db', answer) := run db in
                    (db', Handled answer)
                | None => (db, Refused (UnknownAction action))
                end
            end
        end
    end.

(** ** Stores and runs of the further examples *)

(** A run at [now] where [wg show] prints the sample of the
    specification and the store works. *)
Definition sample_env (now : Z) : Env :=
  MkEnv now (Exited (MkOutput true sample_output "")) Applied None all_applied false.

(** A store whose first peer is the peer of the sample. *)
Definition sample_db : Database :=
  MkDb [peer_row "1" "PEERKEY1"; peer_row "2" "KEY2"] [server_row].

(** A run where the select of the peers fails. *)
Definition unreadable_env : Env :=
  MkEnv 1700000000000 (Exited (MkOutput true quiet_output "")) Applied
    (Some "connection refused") all_applied false.

(** A run of [deletePeer] where the command and the removal of the file
    both fail and the store works. *)
Definition rough_delete_env : DeleteEnv :=
  MkDeleteEnv (SpawnFailed (Error "No such file or directory"))
    (Throw (Error "No such file or directory")) Applied.

(** * Properties *)

(** ** The unit parsers *)

(** The matcher on the expressions of the source: the leftmost match,
    the lazy groups of the transfer line, and the successive matches of
    a global expression. *)
Example match_amount :
  (whole <$> match_first re_amount "about 12.5 GiB") = Some "12.5 GiB".
Proof. vm_compute. reflexivity. Qed.

Example match_transfer :
  (fun m => (group 1 (groups m), group 2 (groups m)))
    <$> match_first re_transfer "transfer: 1.00 MiB received, 500.00 KiB sent"
  = Some (Some "1.00 MiB", Some "500.00 KiB").
Proof. vm_compute. reflexivity. Qed.

Example match_every_duration :
  match_all re_duration "1 hour ago, 21 minutes ago, 2 seconds ago"
  = Some ["1 hour ago"; "21 minutes ago"; "2 seconds ago"].
Proof. vm_compute. reflexivity. Qed.

(** Binary units multiply by powers of 1024 and decimal units by powers
    of 1000; the product is a double and is floored. *)
Example parseTransferAmount_values :
  parseTransferAmount "1.95 MiB" = Num.Int 2044723 /\
  parseTransferAmount "500 KB" = Num.Int 500000 /\
  parseTransferAmount "0.29 KB" = Num.Int 290 /\
  parseTransferAmount "12 parsecs" = Num.Int 0 /\
  parseTransferAmount ". B" = Num.NaN.
Proof. vm_compute. repeat split; reflexivity. Qed.

Lemma total_seconds_compound : total_seconds compound_handshake = Some 2.
Proof. vm_compute. reflexivity. Qed.

Lemma parseHandshakeTime_unfold now text total :
  mentions_never text = false ->
  total_seconds text = Some total ->
  parseHandshakeTime now text = (t ← toISOString (now - total * 1000); mret (Some t)).
Proof. intros Hn Ht. unfold parseHandshakeTime. rewrite Hn, Ht. reflexivity. Qed.

Lemma toISOString_valid ms :
  Z.abs ms <= max_time -> toISOString ms = Normal ms.
Proof.
  intros H. unfold toISOString.
  destruct (Z.leb_spec (Z.abs ms) max_time); [reflexivity | lia].
Qed.

(** C1.  [isRecentHandshake] answers [true] for "90 seconds ago" and
    [false] for "5 minutes ago" and "never", as the specification asks;
    but for "1 hour, 21 minutes, 2 seconds ago", which resolves to 4862
    seconds and is not recent, it answers [true]: it reads the seconds
    clause only. *)
Theorem isRecentHandshake_reads_one_clause :
  (isRecentHandshake "90 seconds ago" = true /\
   spec_isRecent "90 seconds ago" = true) /\
  (isRecentHandshake "5 minutes ago" = false /\
   spec_isRecent "5 minutes ago" = false) /\
  (isRecentHandshake "never" = false /\
   spec_isRecent "never" = false) /\
  spec_resolved_seconds compound_handshake = Some 4862 /\
  spec_isRecent compound_handshake = false /\
  isRecentHandshake compound_handshake = true.
Proof. vm_compute. repeat split; reflexivity. Qed.

(** C2.  For "1 hour, 21 minutes, 2 seconds ago" the loop of
    [parseHandshakeTime] sees one match, "2 seconds ago", and the
    function returns the clock minus 2 seconds, where the sum of all
    clauses is 4862 seconds. *)
Theorem parseHandshakeTime_drops_clauses now :
  Z.abs (now - 2000) <= max_time ->
  match_all re_duration compound_handshake = Some ["2 seconds ago"] /\
  parseHandshakeTime now compound_handshake = Normal (Some (now - 2000)) /\
  spec_resolved_seconds compound_handshake = Some 4862.
Proof.
  intros Hnow.
  split; [vm_compute; reflexivity|].
  split; [|vm_compute; reflexivity].
  rewrite (parseHandshakeTime_unfold now compound_handshake 2);
    [|vm_compute; reflexivity|exact total_seconds_compound].
  change (2 * 1000) with 2000. rewrite toISOString_valid by exact Hnow.
  reflexivity.
Qed.

Lemma parseHandshakeTime_drops_clauses_witness :
  match_all re_duration compound_handshake = Some ["2 seconds ago"] /\
  parseHandshakeTime 1700000000000 compound_handshake
    = Normal (Some (1700000000000 - 2000)) /\
  spec_resolved_seconds compound_handshake = Some 4862.
Proof.
  apply (parseHandshakeTime_drops_clauses 1700000000000).
  vm_compute. discriminate.
Defined.

(** ** The status text parser *)

Lemma total_seconds_sample : total_seconds "10 seconds ago" = Some 10.
Proof. vm_compute. reflexivity. Qed.

(** The parse of the sample reads the clock once, for the handshake. *)
Lemma parse_sample_output now :
  parseWireGuardOutput now sample_output =
  (t ← parseHandshakeTime now "10 seconds ago";
   mret (MkStatus (Some (Iface.Make "wg0" (Some "SERVERKEY") (Some (Num.Int 51820))))
           {[ "PEERKEY1" := sample_peer t ]})).
Proof.
  cbv -[parseHandshakeTime].
  destruct (parseHandshakeTime now "10 seconds ago"); reflexivity.
Qed.

(** C3.  For the status text of the specification the parser returns a
    snapshot whose peers are exactly one entry, under the key PEERKEY1,
    with status connected, 1048576 bytes received, 512000 bytes sent and
    the endpoint 1.2.3.4:51820 (and the handshake 10 seconds before the
    clock). *)
Theorem parseWireGuardOutput_sample now :
  Z.abs (now - 10000) <= max_time ->
  exists wgStatus,
    parseWireGuardOutput now sample_output = Normal wgStatus /\
    peers wgStatus = {[ "PEERKEY1" := sample_peer (Some (now - 10000)) ]} /\
    dom (peers wgStatus) = {[ "PEERKEY1" ]} /\
    forall p, peers wgStatus !! "PEERKEY1" = Some p ->
      Live.publicKey p = "PEERKEY1" /\
      Live.status p = connected /\
      Live.transferRx p = Some (Num.Int 1048576) /\
      Live.transferTx p = Some (Num.Int 512000) /\
      Live.endpoint p = Some "1.2.3.4:51820".
Proof.
  intros Hnow. rewrite parse_sample_output.
  rewrite (parseHandshakeTime_unfold now "10 seconds ago" 10);
    [|vm_compute; reflexivity|exact total_seconds_sample].
  change (10 * 1000) with 10000. rewrite toISOString_valid by exact Hnow.
  eexists. split; [reflexivity|]. cbn [peers].
  split; [reflexivity|]. split; [apply dom_singleton_L|].
  intros p Hp. rewrite lookup_singleton_eq in Hp. injection Hp as <-.
  repeat split; reflexivity.
Qed.

Lemma parseWireGuardOutput_sample_witness :
  exists wgStatus,
    parseWireGuardOutput 1700000000000 sample_output = Normal wgStatus /\
    peers wgStatus
      = {[ "PEERKEY1" := sample_peer (Some (1700000000000 - 10000)) ]} /\
    dom (peers wgStatus) = {[ "PEERKEY1" ]} /\
    forall p, peers wgStatus !! "PEERKEY1" = Some p ->
      Live.publicKey p = "PEERKEY1" /\
      Live.status p = connected /\
      Live.transferRx p = Some (Num.Int 1048576) /\
      Live.transferTx p = Some (Num.Int 512000) /\
      Live.endpoint p = Some "1.2.3.4:51820".
Proof.
  apply (parseWireGuardOutput_sample 1700000000000). vm_compute. discriminate.
Defined.

(** ** The reconciliation engine *)

Section Reconcile.
Variable env : Env.
Variable wgStatus : WgStatus.

Lemma apply_id p r : Peers.id (Peers.apply p r) = Peers.id r.
Proof. reflexivity. Qed.

Lemma find_absent (dbPeers : list PeerRef) (i : string) :
  i ∉ map ref_id dbPeers ->
  find (fun d => bool_decide (ref_id d = i)) dbPeers = None.
Proof.
  induction dbPeers as [|d l IH]; [reflexivity|].
  cbn [map find]. intros Hn. apply not_elem_of_cons in Hn as [Hne Hn].
  rewrite bool_decide_eq_false_2 by congruence. auto.
Qed.

Lemma sync_peers_rows dbPeers : forall rows n,
  NoDup (map ref_id dbPeers) ->
  (sync_peers env wgStatus dbPeers rows n).1 = map (reached_by env wgStatus dbPeers) rows.
Proof.
  induction dbPeers as [|d l IH]; intros rows n Hnd.
  - cbn. symmetry. apply map_id.
  - apply NoDup_cons in Hnd as [Hd Hnd].
    assert (Hskip : forall r, Peers.id r <> ref_id d ->
              reached_by env wgStatus (d :: l) r = reached_by env wgStatus l r).
    { intros r Hr. unfold reached_by. cbn [find].
      rewrite bool_decide_eq_false_2 by congruence. reflexivity. }
    assert (Hhit : forall r, Peers.id r = ref_id d ->
              reached_by env wgStatus (d :: l) r = step env wgStatus d r /\ reached_by env wgStatus l r = r).
    { intros r Hr. unfold reached_by. cbn [find].
      rewrite bool_decide_eq_true_2 by congruence.
      rewrite find_absent by (rewrite Hr; exact Hd). auto. }
    cbn [sync_peers].
    destruct (peer_update env (ref_id d)) eqn:Hout.
    + rewrite IH by exact Hnd. unfold Peers.update_where_id.
      rewrite map_map. apply map_ext. intros r.
      destruct (decide (Peers.id r = ref_id d)) as [Hr|Hr].
      * destruct (Hhit r Hr) as [-> _]. unfold step. rewrite Hout.
        unfold reached_by. rewrite apply_id.
        rewrite find_absent by (rewrite Hr; exact Hd). reflexivity.
      * rewrite Hskip by exact Hr. reflexivity.
    + rewrite IH by exact Hnd. apply map_ext. intros r.
      destruct (decide (Peers.id r = ref_id d)) as [Hr|Hr].
      * destruct (Hhit r Hr) as [-> ->]. unfold step. rewrite Hout. reflexivity.
      * rewrite Hskip by exact Hr. reflexivity.
    + rewrite IH by exact Hnd. apply map_ext. intros r.
      destruct (decide (Peers.id r = ref_id d)) as [Hr|Hr].
      * destruct (Hhit r Hr) as [-> ->]. unfold step. rewrite Hout. reflexivity.
      * rewrite Hskip by exact Hr. reflexivity.
Qed.

Lemma select_refs_ids rows : map ref_id (select_refs rows) = map Peers.id rows.
Proof. unfold select_refs. rewrite map_map. reflexivity. Qed.

Lemma reached_by_own rows r :
  NoDup (map Peers.id rows) -> r ∈ rows ->
  reached_by env wgStatus (select_refs rows) r = sync_row env wgStatus r.
Proof.
  unfold reached_by, sync_row. induction rows as [|x l IH]; intros Hnd Hin.
  - inversion Hin.
  - cbn [map] in Hnd. apply NoDup_cons in Hnd as [Hx Hnd].
    cbn [select_refs map find ref_id].
    apply elem_of_cons in Hin as [->|Hin].
    + rewrite bool_decide_eq_true_2 by reflexivity. reflexivity.
    + rewrite bool_decide_eq_false_2.
      * apply IH; assumption.
      * intros Heq. apply Hx. rewrite Heq. apply list_elem_of_fmap_2. exact Hin.
Qed.

(** With distinct ids, the loop rewrites each row by its own entry. *)
Lemma sync_peers_own rows n :
  NoDup (map Peers.id rows) ->
  (sync_peers env wgStatus (select_refs rows) rows n).1 = map (sync_row env wgStatus) rows.
Proof.
  intros Hnd. rewrite sync_peers_rows by (rewrite select_refs_ids; exact Hnd).
  apply map_ext_in. intros r Hr. apply reached_by_own; [exact Hnd|].
  apply list_elem_of_In. exact Hr.
Qed.

(** [updatedCount] counts the passes whose update did not throw. *)
Lemma sync_peers_count dbPeers : forall rows n,
  (sync_peers env wgStatus dbPeers rows n).2
  = n + Z.of_nat (length (List.filter (counted env) dbPeers)).
Proof.
  induction dbPeers as [|d l IH]; intros rows n; cbn [sync_peers List.filter].
  - cbn. lia.
  - unfold counted at 1.
    destruct (peer_update env (ref_id d)); rewrite IH; cbn [length]; lia.
Qed.

End Reconcile.

Lemma sync_row_id env wgStatus r : Peers.id (sync_row env wgStatus r) = Peers.id r.
Proof.
  unfold sync_row, step. cbn [ref_id].
  destruct (peer_update env (Peers.id r)); reflexivity.
Qed.

Lemma sync_rows_ids env wgStatus rows :
  map Peers.id (map (sync_row env wgStatus) rows) = map Peers.id rows.
Proof. rewrite map_map. apply map_ext. intros r. apply sync_row_id. Qed.

(** A run that answers with success has rewritten every row by its own
    entry, and reports the passes that did not throw. *)
Lemma sync_ok env db body :
  NoDup (map Peers.id (wireguard_peers db)) ->
  (syncWireGuardStatus env db).2 = Ok body ->
  let wgStatus := getWireGuardStatus (now env) (wg_show env) in
  wireguard_peers (syncWireGuardStatus env db).1
    = map (sync_row env wgStatus) (wireguard_peers db) /\
  body = MkSync true (interface wgStatus)
           (Z.of_nat (length (List.filter (counted env)
                                (select_refs (wireguard_peers db))))).
Proof.
  intros Hnd. unfold syncWireGuardStatus.
  destruct (sync_server _ _ _) as [servers|e]; [|discriminate].
  destruct (peers_select env); [discriminate|].
  pose proof (sync_peers_own env (getWireGuardStatus (now env) (wg_show env))
                (wireguard_peers db) 0 Hnd) as Hrows.
  pose proof (sync_peers_count env (getWireGuardStatus (now env) (wg_show env))
                (select_refs (wireguard_peers db)) (wireguard_peers db) 0) as Hcount.
  destruct (sync_peers _ _ _ _ _) as [rows n]. cbn in Hrows, Hcount |- *.
  intros [= <-]. subst. split; reflexivity.
Qed.

(** Whatever the answer, the rows after a run are the rows before it or
    the rows rewritten one by one. *)
Lemma sync_rows_cases env db :
  NoDup (map Peers.id (wireguard_peers db)) ->
  let wgStatus := getWireGuardStatus (now env) (wg_show env) in
  wireguard_peers (syncWireGuardStatus env db).1 = wireguard_peers db \/
  wireguard_peers (syncWireGuardStatus env db).1
    = map (sync_row env wgStatus) (wireguard_peers db).
Proof.
  intros Hnd wgStatus.
  destruct (syncWireGuardStatus env db).2 as [body|failure] eqn:Hanswer.
  - right. apply (sync_ok env db body Hnd Hanswer).
  - left. revert Hanswer. unfold syncWireGuardStatus.
    destruct (sync_server _ _ _) as [servers|e]; [|reflexivity].
    destruct (peers_select env); [reflexivity|].
    destruct (sync_peers _ _ _ _ _). discriminate.
Qed.

(** *** Reading the snapshot *)

Lemma get_entry a m key p : m !! key = Some p -> Live.get a m key = Live.Entry p.
Proof. intros H. unfold Live.get. rewrite H. reflexivity. Qed.

(** A key that the parser has not stored reads as no entry. *)
Lemma get_no_entry a m key :
  m !! key = None -> Live.get a m key = Live.Truthy \/ Live.get a m key = Live.Falsy.
Proof.
  intros H. unfold Live.get. rewrite H.
  destruct (if a then _ else _) as [[]|]; auto. destruct (Live.inherited a key); auto.
Qed.

(** The name of an inherited function reads as a truthy value. *)
Lemma get_function a m key :
  m !! key = None -> key ∈ Live.object_functions -> Live.get a m key = Live.Truthy.
Proof.
  intros Hnone Hkey. unfold Live.get. rewrite Hnone. unfold Live.object_functions in Hkey.
  repeat (apply elem_of_cons in Hkey as [->|Hkey];
          [destruct a; [destruct (m !! "__proto__")|]; reflexivity|]).
  inversion Hkey.
Qed.

(** The row of a peer after a successful run whose update of that row
    was applied. *)
Lemma sync_applied_row env db body r :
  NoDup (map Peers.id (wireguard_peers db)) ->
  (syncWireGuardStatus env db).2 = Ok body ->
  r ∈ wireguard_peers db ->
  peer_update env (Peers.id r) = Applied ->
  let wgPeer :=
    Live.get (proto_accessor env) (peers (getWireGuardStatus (now env) (wg_show env)))
      (Peers.public_key r) in
  let r' := Peers.apply (updateData (now env) wgPeer) r in
  r' ∈ wireguard_peers (syncWireGuardStatus env db).1 /\
  forall x, x ∈ wireguard_peers (syncWireGuardStatus env db).1 ->
            Peers.id x = Peers.id r -> x = r'.
Proof.
  intros Hnd Hok Hin Happlied wgPeer r'.
  destruct (sync_ok env db body Hnd Hok) as [-> _].
  assert (Hrow : sync_row env (getWireGuardStatus (now env) (wg_show env)) r = r').
  { unfold sync_row, step. cbn [ref_id ref_public_key]. rewrite Happlied. reflexivity. }
  split.
  - apply list_elem_of_fmap. exists r. split; [symmetry; exact Hrow|exact Hin].
  - intros x Hx Hid. apply list_elem_of_fmap in Hx as (y & -> & Hy).
    rewrite sync_row_id in Hid. rewrite <- Hrow. f_equal.
    clear - Hnd Hin Hy Hid. induction (wireguard_peers db) as [|z l IH]; [inversion Hin|].
    cbn [map] in Hnd. apply NoDup_cons in Hnd as [Hz Hnd].
    apply elem_of_cons in Hin as [->|Hin], Hy as [->|Hy]; try reflexivity.
    + exfalso. apply Hz. rewrite <- Hid. apply list_elem_of_fmap_2, Hy.
    + exfalso. apply Hz. rewrite Hid. apply list_elem_of_fmap_2, Hin.
    + apply IH; assumption.
Qed.

(** The row of a peer that the snapshot reads as nothing. *)
Lemma sync_absent_row env db body r :
  NoDup (map Peers.id (wireguard_peers db)) ->
  (syncWireGuardStatus env db).2 = Ok body ->
  r ∈ wireguard_peers db ->
  Live.get (proto_accessor env) (peers (getWireGuardStatus (now env) (wg_show env)))
    (Peers.public_key r) = Live.Falsy ->
  peer_update env (Peers.id r) = Applied ->
  Peers.apply (updateData (now env) Live.Falsy) r
    ∈ wireguard_peers (syncWireGuardStatus env db).1.
Proof.
  intros Hnd Hok Hin Habsent Happlied.
  pose proof (sync_applied_row env db body r Hnd Hok Hin Happlied) as [H _].
  rewrite Habsent in H. exact H.
Qed.

(** C4.  In a run of [syncWireGuardStatus] that answers with success,
    take a peer row whose public key the parser has not stored, and
    whose update the store applies.  After the run the row with its id
    has no last handshake, 0 bytes received, 0 bytes sent and no
    endpoint, whatever it held before.  Its status is disconnected when
    [peers[key]] reads as nothing.  It is not when the key is the name
    of a function that every object inherits, [constructor] for one:
    the source then sends a [status] that is [undefined], and the row
    keeps the status it had. *)
Theorem sync_absent_peer_by_key env db body r :
  NoDup (map Peers.id (wireguard_peers db)) ->
  (syncWireGuardStatus env db).2 = Ok body ->
  r ∈ wireguard_peers db ->
  peers (getWireGuardStatus (now env) (wg_show env)) !! Peers.public_key r = None ->
  peer_update env (Peers.id r) = Applied ->
  exists r',
    r' ∈ wireguard_peers (syncWireGuardStatus env db).1 /\
    (forall x, x ∈ wireguard_peers (syncWireGuardStatus env db).1 ->
               Peers.id x = Peers.id r -> x = r') /\
    Peers.id r' = Peers.id r /\
    Peers.public_key r' = Peers.public_key r /\
    Peers.last_handshake r' = None /\
    Peers.transfer_rx r' = Some 0 /\
    Peers.transfer_tx r' = Some 0 /\
    Peers.endpoint r' = None /\
    (Live.get (proto_accessor env)
       (peers (getWireGuardStatus (now env) (wg_show env))) (Peers.public_key r)
     = Live.Falsy ->
     Peers.status r' = disconnected) /\
    (Peers.public_key r ∈ Live.object_functions ->
     Peers.status r' = Peers.status r).
Proof.
  intros Hnd Hok Hin Hnone Happlied.
  pose proof (sync_applied_row env db body r Hnd Hok Hin Happlied) as [Hrow Honly].
  pose proof (get_function (proto_accessor env) _ _ Hnone) as Hfunction.
  destruct (get_no_entry (proto_accessor env) _ _ Hnone) as [Hget|Hget];
    rewrite Hget in Hrow, Honly, Hfunction |- *;
    (eexists; split; [exact Hrow|]; split; [exact Honly|]);
    repeat split; try reflexivity; try discriminate.
  intros Hkey. specialize (Hfunction Hkey). discriminate.
Qed.

Lemma three_peers_distinct : NoDup (map Peers.id three_peers).
Proof. apply (bool_decide_unpack _). vm_compute. exact I. Qed.

Lemma quiet_snapshot now outcome :
  getWireGuardStatus now (wg_show (quiet_env now outcome))
  = MkStatus (Some quiet_interface) ∅.
Proof. cbv -[parseHandshakeTime]. reflexivity. Qed.

Lemma named_peers_distinct : NoDup (map Peers.id named_peers).
Proof. apply (bool_decide_unpack _). vm_compute. exact I. Qed.

Lemma sync_absent_peer_by_key_witness :
  let env := quiet_env 1700000000000 all_applied in
  let db := MkDb named_peers [server_row] in
  (exists r',
     r' ∈ wireguard_peers (syncWireGuardStatus env db).1 /\
     Peers.public_key r' = "KEY1" /\
     Peers.status r' = disconnected /\
     Peers.transfer_rx r' = Some 0) /\
  (exists r',
     r' ∈ wireguard_peers (syncWireGuardStatus env db).1 /\
     Peers.public_key r' = "constructor" /\
     Peers.status r' = connected /\
     Peers.transfer_rx r' = Some 0).
Proof.
  intros env db.
  assert (Hok : (syncWireGuardStatus env db).2 = Ok (MkSync true (Some quiet_interface) 2))
    by (vm_compute; reflexivity).
  split.
  - destruct (sync_absent_peer_by_key env db _ (peer_row "1" "KEY1")
                named_peers_distinct Hok (list_elem_of_here _ _) eq_refl eq_refl)
      as (r' & Hin & _ & _ & Hkey & _ & Hrx & _ & _ & Hnothing & _).
    exists r'. repeat split; [exact Hin|exact Hkey| |exact Hrx].
    apply Hnothing. vm_compute. reflexivity.
  - destruct (sync_absent_peer_by_key env db _ (peer_row "2" "constructor")
                named_peers_distinct Hok
                (list_elem_of_further _ _ _ (list_elem_of_here _ _)) eq_refl eq_refl)
      as (r' & Hin & _ & _ & Hkey & _ & Hrx & _ & _ & _ & Hfunction).
    exists r'. repeat split; [exact Hin|exact Hkey| |exact Hrx].
    apply Hfunction. apply list_elem_of_here.
Defined.

(** *** Running the reconciler twice *)

(** Whether a text gives a handshake time does not depend on the
    clock. *)
Lemma parseHandshakeTime_shape now1 now2 text h1 h2 :
  parseHandshakeTime now1 text = Normal h1 ->
  parseHandshakeTime now2 text = Normal h2 ->
  match h1, h2 with
  | Some _, Some _ | None, None => True
  | _, _ => False
  end.
Proof.
  unfold parseHandshakeTime, toISOString.
  destruct (mentions_never text); [intros [= <-] [= <-]; exact I|].
  destruct (total_seconds text) as [total|]; [|intros [= <-] [= <-]; exact I].
  destruct (Z.abs _ <=? max_time); [|discriminate].
  destruct (Z.abs _ <=? max_time); [|discriminate].
  intros [= <-] [= <-]. exact I.
Qed.

Lemma same_current (c1 c2 : option Live.peer) :
  Live.without_handshake_time <$> c1 = Live.without_handshake_time <$> c2 ->
  match c1, c2 with
  | Some p1, Some p2 => Live.without_handshake_time p1 = Live.without_handshake_time p2
  | None, None => True
  | _, _ => False
  end.
Proof.
  destruct c1, c2; intros H; try discriminate H; [|exact I].
  exact (inj Some _ _ H).
Qed.

Lemma same_flush st1 st2 :
  same_but_times st1 st2 ->
  Live.without_handshake_time <$> flush st1 = Live.without_handshake_time <$> flush st2.
Proof.
  intros (_ & Hm & Hc). apply same_current in Hc. unfold flush.
  destruct (currentPeer st1) as [p1|], (currentPeer st2) as [p2|];
    try contradiction; [|exact Hm].
  pose proof (f_equal Live.publicKey Hc) as Hkey.
  cbn in Hkey. rewrite !fmap_insert, Hm, Hc, Hkey. reflexivity.
Qed.

Lemma same_on_peer f st1 st2 :
  (forall p, Live.without_handshake_time (f p) = f (Live.without_handshake_time p)) ->
  same_but_times st1 st2 -> same_but_times (on_peer f st1) (on_peer f st2).
Proof.
  intros Hf (Hi & Hm & Hc). apply same_current in Hc.
  split; [exact Hi|]. split; [exact Hm|].
  cbn [on_peer currentPeer].
  destruct (currentPeer st1) as [p1|], (currentPeer st2) as [p2|];
    try contradiction; [|reflexivity].
  change (Some (Live.without_handshake_time (f p1))
          = Some (Live.without_handshake_time (f p2))).
  rewrite !Hf, Hc. reflexivity.
Qed.

Lemma same_on_interface f st1 st2 :
  same_but_times st1 st2 -> same_but_times (on_interface f st1) (on_interface f st2).
Proof.
  intros (Hi & Hm & Hc). split; [|split; [exact Hm|exact Hc]].
  cbn [on_interface interface_info]. rewrite Hi. reflexivity.
Qed.

(** One line keeps two states the same but for the times. *)
Lemma same_parse_line now1 now2 line st1 st2 st1' st2' :
  same_but_times st1 st2 ->
  parse_line now1 st1 line = Normal st1' ->
  parse_line now2 st2 line = Normal st2' ->
  same_but_times st1' st2'.
Proof.
  intros Hsame. pose proof Hsame as (Hi & Hm & Hc). apply same_current in Hc.
  unfold parse_line.
  destruct (Str.startsWith line "interface:").
  { intros [= <-] [= <-]. split; [reflexivity|]. split; [exact Hm|apply Hsame]. }
  destruct (Str.startsWith line "public key:").
  { destruct (currentPeer st1) as [p1|] eqn:E1, (currentPeer st2) as [p2|] eqn:E2;
      try contradiction; intros [= <-] [= <-].
    - apply same_on_peer; [reflexivity|exact Hsame].
    - apply same_on_interface, Hsame. }
  destruct (Str.startsWith line "listening port:").
  { intros [= <-] [= <-]. apply same_on_interface, Hsame. }
  destruct (Str.startsWith line "peer:").
  { intros [= <-] [= <-].
    split; [exact Hi|]. split; [apply same_flush, Hsame|reflexivity]. }
  destruct (Str.startsWith line "endpoint:").
  { intros [= <-] [= <-]. apply same_on_peer; [reflexivity|exact Hsame]. }
  destruct (Str.startsWith line "allowed ips:").
  { intros [= <-] [= <-]. apply same_on_peer; [reflexivity|exact Hsame]. }
  destruct (Str.startsWith line "latest handshake:").
  { destruct (currentPeer st1) as [p1|] eqn:E1, (currentPeer st2) as [p2|] eqn:E2;
      try contradiction; [|intros [= <-] [= <-]; exact Hsame].
    destruct (parseHandshakeTime now1 _) as [h1|] eqn:H1; [|discriminate].
    destruct (parseHandshakeTime now2 _) as [h2|] eqn:H2; [|discriminate].
    pose proof (parseHandshakeTime_shape _ _ _ _ _ H1 H2) as Hshape.
    intros [= <-] [= <-]. split; [exact Hi|]. split; [exact Hm|].
    cbn [currentPeer].
    change (Some (Live.without_handshake_time
                    (Live.set_status
                       (if isRecentHandshake (after_first_colon line)
                        then connected else disconnected)
                       (Live.set_lastHandshake h1 p1)))
            = Some (Live.without_handshake_time
                      (Live.set_status
                         (if isRecentHandshake (after_first_colon line)
                          then connected else disconnected)
                         (Live.set_lastHandshake h2 p2)))).
    f_equal. destruct p1, p2. cbn in Hc |- *. injection Hc as -> -> -> -> _ -> ->.
    destruct h1, h2; (reflexivity || contradiction). }
  destruct (Str.startsWith line "transfer:"); [|intros [= <-] [= <-]; exact Hsame].
  destruct (currentPeer st1) as [p1|] eqn:E1, (currentPeer st2) as [p2|] eqn:E2;
    try contradiction; [|intros [= <-] [= <-]; exact Hsame].
  destruct (match_first re_transfer line) as [m|]; [|intros [= <-] [= <-]; exact Hsame].
  destruct (group 1 (groups m)); [|intros [= <-] [= <-]; exact Hsame].
  destruct (group 2 (groups m)); [|intros [= <-] [= <-]; exact Hsame].
  intros [= <-] [= <-]. apply same_on_peer; [reflexivity|exact Hsame].
Qed.

Lemma same_parse_lines now1 now2 lines : forall st1 st2 st1' st2',
  same_but_times st1 st2 ->
  parse_lines now1 st1 lines = Normal st1' ->
  parse_lines now2 st2 lines = Normal st2' ->
  same_but_times st1' st2'.
Proof.
  induction lines as [|line lines IH]; intros st1 st2 st1' st2' Hsame;
    cbn [parse_lines].
  - intros [= <-] [= <-]. exact Hsame.
  - destruct (parse_line now1 st1 line) as [s1|] eqn:E1; [|discriminate].
    destruct (parse_line now2 st2 line) as [s2|] eqn:E2; [|discriminate].
    apply IH. exact (same_parse_line _ _ _ _ _ _ _ Hsame E1 E2).
Qed.

(** The same run of the command, read at two clocks, gives two
    snapshots that differ at most in the times of handshakes, unless
    one of them is the fallback and the other is not. *)
Lemma same_snapshot now1 now2 wg_show :
  falls_back now1 wg_show = falls_back now2 wg_show ->
  interface (getWireGuardStatus now1 wg_show)
    = interface (getWireGuardStatus now2 wg_show) /\
  Live.without_handshake_time <$> peers (getWireGuardStatus now1 wg_show)
    = Live.without_handshake_time <$> peers (getWireGuardStatus now2 wg_show).
Proof.
  assert (Hmock : interface (getMockWireGuardStatus now1)
                    = interface (getMockWireGuardStatus now2) /\
                  Live.without_handshake_time <$> peers (getMockWireGuardStatus now1)
                    = Live.without_handshake_time <$> peers (getMockWireGuardStatus now2)).
  { split; [reflexivity|]. unfold getMockWireGuardStatus. cbn [peers].
    rewrite !fmap_insert, !fmap_empty. reflexivity. }
  unfold falls_back, getWireGuardStatus.
  destruct wg_show as [output|e]; [|intros _; exact Hmock].
  destruct (success output); [|intros _; exact Hmock].
  unfold parseWireGuardOutput.
  destruct (parse_lines now1 _ _) as [st1|] eqn:E1,
           (parse_lines now2 _ _) as [st2|] eqn:E2;
    cbn; try discriminate; intros _; [|exact Hmock].
  assert (Hstart : same_but_times (MkParse None ∅ None) (MkParse None ∅ None))
    by (repeat split; reflexivity).
  pose proof (same_parse_lines _ _ _ _ _ _ _ Hstart E1 E2) as Hsame.
  split; [apply Hsame|apply same_flush, Hsame].
Qed.

Lemma own_property_without_time p key :
  Live.own_property (Live.without_handshake_time p) key = Live.own_property p key.
Proof.
  unfold Live.own_property.
  repeat match goal with
         | |- context [String.eqb key ?k] => destruct (String.eqb key k)
         end; try reflexivity.
  cbn. destruct (Live.lastHandshake p) as [[t|]|]; reflexivity.
Qed.

Lemma get_without_time a m key :
  Live.get a (Live.without_handshake_time <$> m) key
  = value_without_time (Live.get a m key).
Proof.
  unfold Live.get. rewrite !lookup_fmap.
  destruct (m !! key) as [p|]; [reflexivity|]. cbn.
  destruct a; [|destruct (Live.inherited false key); reflexivity].
  destruct (m !! "__proto__") as [q|]; cbn.
  - rewrite own_property_without_time.
    destruct (Live.own_property q key) as [[]|]; try reflexivity.
    destruct (Live.inherited true key); reflexivity.
  - destruct (Live.inherited true key); reflexivity.
Qed.

(** Writing a row again from a value that differs in the time of its
    handshake at most changes [last_handshake] and [updated_at] at
    most. *)
Lemma resync_row now1 now2 w1 w2 r :
  value_without_time w1 = value_without_time w2 ->
  Peers.without_times (Peers.apply (updateData now2 w2) (Peers.apply (updateData now1 w1) r))
  = Peers.without_times (Peers.apply (updateData now1 w1) r).
Proof.
  destruct w1 as [p1| |], w2 as [p2| |]; cbn [value_without_time];
    try discriminate; try reflexivity.
  intros Hp. destruct p1, p2. cbn in Hp. injection Hp as -> -> -> -> _ -> ->.
  reflexivity.
Qed.




(** *** A store that fails for one row *)

(** C6.  Three peers, none in the snapshot; the store refuses the
    update of the second and reports it in [error], as it reports every
    failure to the callers that read it.  The rows of peers 1 and 3 are
    rewritten, the row of peer 2 is not, the answer is a success, and
    [peersUpdated] is 3, not 2: the loop does not read [error].  Only
    when the update throws does the count stay at 2. *)
Theorem sync_counts_refused_update :
  let db := MkDb three_peers [server_row] in
  let reset := Peers.apply (updateData 1700000000000 Live.Falsy) in
  let rewritten :=
    [reset (peer_row "1" "KEY1"); peer_row "2" "KEY2"; reset (peer_row "3" "KEY3")] in
  let refused := syncWireGuardStatus (quiet_env 1700000000000 second_rejected) db in
  let thrown := syncWireGuardStatus (quiet_env 1700000000000 second_threw) db in
  wireguard_peers refused.1 = rewritten /\
  refused.2 = Ok (MkSync true (Some quiet_interface) 3) /\
  wireguard_peers thrown.1 = rewritten /\
  thrown.2 = Ok (MkSync true (Some quiet_interface) 2).
Proof. vm_compute. repeat split; reflexivity. Qed.

(** *** The server row *)

(** C7.  When [wireguard_server] has no row, a run of
    [syncWireGuardStatus] leaves it without one, whatever the snapshot:
    the update is guarded by [if (existingServer)] and nothing inserts. *)
Theorem sync_creates_no_server_row env rows :
  wireguard_server (syncWireGuardStatus env (MkDb rows [])).1 = [].
Proof.
  unfold syncWireGuardStatus. cbn [wireguard_server sync_server head].
  change (mret []) with (@Normal (list Server.row) []). cbn iota.
  destruct (peers_select env); [reflexivity|].
  destruct (sync_peers _ _ _ _ _). reflexivity.
Qed.

(** A row that exists is updated: running when the snapshot has an
    interface, stopped when it has none. *)
Lemma sync_updates_server_row :
  let up := quiet_env 1700000000000 all_applied in
  let down :=
    MkEnv 1700000000000 (Exited (MkOutput true "" "")) Applied None all_applied false in
  let db := MkDb [] [server_row] in
  Server.status <$> wireguard_server (syncWireGuardStatus up db).1 = [running] /\
  Server.public_key <$> wireguard_server (syncWireGuardStatus up db).1 = ["SERVERKEY"] /\
  Server.status <$> wireguard_server (syncWireGuardStatus down db).1 = [stopped] /\
  Server.public_key <$> wireguard_server (syncWireGuardStatus down db).1 = ["OLDKEY"].
Proof. vm_compute. repeat split; reflexivity. Qed.

(** ** The fallback snapshot *)

(** C8 fails as stated: the fallback computes the handshakes of its two
    peers from the clock, so two calls at different times differ. *)
Lemma fallback_follows_clock :
  getWireGuardStatus 1700000000000 (SpawnFailed (Error "No such file or directory"))
  <> getWireGuardStatus 1700000060000 (SpawnFailed (Error "No such file or directory")).
Proof.
  intros H.
  apply (f_equal (fun s => peers s !! "mock_peer_key_1" ≫= Live.lastHandshake)) in H.
  vm_compute in H. discriminate.
Qed.

(** C8, amended.  Whenever the status command cannot be spawned or
    exits without success, [getWireGuardStatus] returns the fallback
    snapshot.  Any two fallback snapshots have the same interface and,
    under the same two keys, peers that are equal in every field but
    [lastHandshake], which is 90 seconds before the clock of the call for
    the first peer and 300 seconds before it for the second. *)
Theorem fallback_fixed_but_handshakes now1 now2 e out err :
  getWireGuardStatus now1 (SpawnFailed e) = getMockWireGuardStatus now1 /\
  getWireGuardStatus now1 (Exited (MkOutput false out err))
    = getMockWireGuardStatus now1 /\
  interface (getMockWireGuardStatus now1) = interface (getMockWireGuardStatus now2) /\
  Live.without_lastHandshake <$> peers (getMockWireGuardStatus now1)
    = Live.without_lastHandshake <$> peers (getMockWireGuardStatus now2) /\
  dom (peers (getMockWireGuardStatus now1))
    = {[ "mock_peer_key_1"; "mock_peer_key_2" ]} /\
  peers (getMockWireGuardStatus now1) !! "mock_peer_key_1" ≫= Live.lastHandshake
    = Some (Some (now1 - 90000)) /\
  peers (getMockWireGuardStatus now1) !! "mock_peer_key_2" ≫= Live.lastHandshake
    = Some (Some (now1 - 300000)).
Proof.
  split; [reflexivity|]. split; [reflexivity|]. split; [reflexivity|].
  unfold getMockWireGuardStatus. cbn [peers].
  split; [rewrite !fmap_insert, !fmap_empty; reflexivity|].
  split; [rewrite !dom_insert_L, dom_empty_L; set_solver|].
  split.
  - rewrite lookup_insert_ne by discriminate. rewrite lookup_insert_eq. reflexivity.
  - rewrite lookup_insert_eq. reflexivity.
Qed.

(** ** The peer lifecycle *)

(** C9 fails as stated: nothing validates the request.  A request
    without [allowedIps] is not refused: the peer is created with the
    address 10.0.0.2/32.  An [allowedIps] that is no address range and
    a name that is empty are not refused either: the peer is created
    with them. *)
Lemma createPeer_accepts_missing_and_malformed :
  let db := MkDb three_peers [server_row] in
  (exists body,
     (createPeer create_env "user-1" (MkParams (Some "laptop") None) db).2 = Ok body /\
     Peers.allowed_ips (created_peer body) = "10.0.0.2/32") /\
  (exists body,
     (createPeer create_env "user-1"
        (MkParams (Some "laptop") (Some "not an address")) db).2 = Ok body /\
     Peers.allowed_ips (created_peer body) = "not an address") /\
  (exists body,
     (createPeer create_env "user-1" (MkParams (Some "") (Some "10.7.0.9/32")) db).2
     = Ok body /\
     Peers.name (created_peer body) = "").
Proof. repeat split; eexists; split; vm_compute; reflexivity. Qed.

Lemma existsb_elem_of {A : Type} (f : A -> bool) (l : list A) (x : A) :
  x ∈ l -> f x = true -> existsb f l = true.
Proof.
  intros Hin Hf. apply existsb_exists. exists x.
  split; [apply list_elem_of_In, Hin|exact Hf].
Qed.

Lemma existsb_none {A : Type} (f : A -> bool) (l : list A) :
  (forall x, x ∈ l -> f x = false) -> existsb f l = false.
Proof.
  induction l as [|a l IH]; intros H; [reflexivity|]. cbn [existsb].
  rewrite H by apply list_elem_of_here. apply IH. intros x Hx. apply H.
  apply list_elem_of_further, Hx.
Qed.

(** C9, amended.  [createPeer] fails, with the one kind of error the
    program has and the store left as it was, when the request has no
    name or when the generated public key is the public key of a row of
    the store; the failure carries the store's refusal of the insert.
    Nothing else of the request is checked: for a name, whatever its
    text, that the user has not used, with a fresh id and a fresh key, a
    server row and an update of the path that does not throw, the
    answer is the created peer, with the name as given and with
    [allowedIps] as given, or 10.0.0.2/32 when the request has none or
    an empty one; a row with that id, name and address is in the store
    then. *)
Theorem createPeer_refused_by_store_only cenv userId params db :
  ((param_name params = None \/
    exists r, r ∈ wireguard_peers db /\
              Peers.public_key r = generated_public_key cenv) ->
   exists cause,
     createPeer cenv userId params db = (db, ServerError (FailedToCreatePeer cause))) /\
  (forall name,
     param_name params = Some name ->
     generated_id cenv ∉ map Peers.id (wireguard_peers db) ->
     generated_public_key cenv ∉ map Peers.public_key (wireguard_peers db) ->
     (name, userId) ∉ map named (wireguard_peers db) ->
     wireguard_server db <> [] ->
     (forall e, path_update cenv <> Threw e) ->
     exists body stored,
       (createPeer cenv userId params db).2 = Ok body /\
       Peers.name (created_peer body) = name /\
       Peers.user_id (created_peer body) = userId /\
       Peers.allowed_ips (created_peer body)
       = match param_allowedIps params with
         | Some allowedIps =>
             if Str.is_empty allowedIps then "10.0.0.2/32" else allowedIps
         | None => "10.0.0.2/32"
         end /\
       stored ∈ wireguard_peers (createPeer cenv userId params db).1 /\
       Peers.id stored = Peers.id (created_peer body) /\
       Peers.name stored = name /\
       Peers.allowed_ips stored = Peers.allowed_ips (created_peer body)).
Proof.
  split.
  - intros Hbad. unfold createPeer, insert_peer.
    destruct (param_name params) as [name|]; [|eexists; reflexivity].
    destruct Hbad as [Hname|(r & Hin & Hkey)]; [discriminate|].
    destruct (existsb _ _); [eexists; reflexivity|].
    destruct (existsb _ _); [eexists; reflexivity|].
    rewrite (existsb_elem_of _ _ r Hin) by (apply bool_decide_eq_true_2, Hkey).
    eexists; reflexivity.
  - intros name Hname Hid Hkey Hnamed Hserver Hpath.
    unfold createPeer, insert_peer. rewrite Hname.
    rewrite (existsb_none (fun r => bool_decide (Peers.id r = generated_id cenv))).
    2:{ intros x Hx. apply bool_decide_eq_false_2. intros Heq. apply Hid.
        rewrite <- Heq. apply list_elem_of_fmap_2, Hx. }
    rewrite (existsb_none
               (fun r => bool_decide (Peers.name r = name ∧ Peers.user_id r = userId))).
    2:{ intros x Hx. apply bool_decide_eq_false_2. intros [Hn Hu]. apply Hnamed.
        rewrite <- Hn, <- Hu. apply (list_elem_of_fmap_2 named), Hx. }
    rewrite (existsb_none
               (fun r => bool_decide (Peers.public_key r = generated_public_key cenv))).
    2:{ intros x Hx. apply bool_decide_eq_false_2. intros Heq. apply Hkey.
        rewrite <- Heq. apply list_elem_of_fmap_2, Hx. }
    destruct (wireguard_server db) as [|serverConfig servers]; [congruence|].
    cbn [head].
    assert (Hdefault : allowed_ips_or_default (param_allowedIps params)
                       = match param_allowedIps params with
                         | Some allowedIps =>
                             if Str.is_empty allowedIps then "10.0.0.2/32" else allowedIps
                         | None => "10.0.0.2/32"
                         end).
    { unfold allowed_ips_or_default, string_or_null.
      destruct (param_allowedIps params) as [a|]; [|reflexivity].
      destruct (Str.is_empty a); reflexivity. }
    destruct (path_update cenv) as [|detail|e]; [| |exfalso; exact (Hpath e eq_refl)].
    + eexists _, _. cbn [fst snd created_peer wireguard_peers].
      split; [reflexivity|]. split; [reflexivity|]. split; [reflexivity|].
      split; [exact Hdefault|]. split.
      * unfold Peers.update_where_id. apply list_elem_of_fmap. eexists.
        split; [reflexivity|]. apply elem_of_app. right. apply list_elem_of_here.
      * cbn. rewrite decide_True by reflexivity. cbn. auto.
    + eexists _, _. cbn [fst snd created_peer wireguard_peers].
      split; [reflexivity|]. split; [reflexivity|]. split; [reflexivity|].
      split; [exact Hdefault|]. split.
      * apply elem_of_app. right. apply list_elem_of_here.
      * cbn. auto.
Qed.

Lemma createPeer_refused_by_store_only_witness :
  let db := MkDb three_peers [server_row] in
  (exists cause,
     createPeer (MkCreateEnv "PRIVATEKEY" "KEY2" "peer-9" 1700000000000 Applied)
       "user-1" (MkParams (Some "laptop") (Some "10.7.0.9/32")) db
     = (db, ServerError (FailedToCreatePeer cause))) /\
  (exists body stored,
     (createPeer create_env "user-1" (MkParams (Some "laptop") None) db).2 = Ok body /\
     Peers.name (created_peer body) = "laptop" /\
     Peers.user_id (created_peer body) = "user-1" /\
     Peers.allowed_ips (created_peer body) = "10.0.0.2/32" /\
     stored ∈ wireguard_peers
                (createPeer create_env "user-1" (MkParams (Some "laptop") None) db).1 /\
     Peers.id stored = Peers.id (created_peer body) /\
     Peers.name stored = "laptop" /\
     Peers.allowed_ips stored = Peers.allowed_ips (created_peer body)).
Proof.
  intros db. split.
  - apply (proj1 (createPeer_refused_by_store_only
                    (MkCreateEnv "PRIVATEKEY" "KEY2" "peer-9" 1700000000000 Applied)
                    "user-1" (MkParams (Some "laptop") (Some "10.7.0.9/32")) db)).
    right. exists (peer_row "2" "KEY2"). split; [|reflexivity].
    apply list_elem_of_further, list_elem_of_here.
  - apply (proj2 (createPeer_refused_by_store_only create_env "user-1"
                    (MkParams (Some "laptop") None) db) "laptop" eq_refl);
      first [ apply (bool_decide_unpack _); vm_compute; exact I
            | discriminate
            | intros e; discriminate ].
Defined.

(** ** The status of one peer *)

Lemma owned_by_apply peerId userId p r :
  owned_by peerId userId (Peers.apply p r) = owned_by peerId userId r.
Proof. reflexivity. Qed.

Lemma filter_not_owned peerId userId rows :
  peerId ∉ map Peers.id rows ->
  List.filter (owned_by peerId userId) rows = [].
Proof.
  induction rows as [|x l IH]; [reflexivity|].
  cbn [map List.filter]. intros Hn. apply not_elem_of_cons in Hn as [Hne Hn].
  unfold owned_by at 1. rewrite bool_decide_eq_false_2 by (intros [? _]; congruence).
  auto.
Qed.

(** With distinct ids, the select of [getPeerStatus] finds the row. *)
Lemma filter_owned rows r :
  NoDup (map Peers.id rows) -> r ∈ rows ->
  List.filter (owned_by (Peers.id r) (Peers.user_id r)) rows = [r].
Proof.
  induction rows as [|x l IH]; intros Hnd Hin; [inversion Hin|].
  cbn [map] in Hnd. apply NoDup_cons in Hnd as [Hx Hnd]. cbn [List.filter].
  apply elem_of_cons in Hin as [->|Hin].
  - unfold owned_by at 1. rewrite bool_decide_eq_true_2 by auto.
    rewrite filter_not_owned by exact Hx. reflexivity.
  - unfold owned_by at 1. rewrite bool_decide_eq_false_2.
    + apply IH; assumption.
    + intros [Heq _]. apply Hx. rewrite Heq. apply list_elem_of_fmap_2. exact Hin.
Qed.

Lemma filter_owned_updated peerId userId p rows :
  List.filter (owned_by peerId userId) (Peers.update_where_id_user peerId userId p rows)
  = map (Peers.apply p) (List.filter (owned_by peerId userId) rows).
Proof.
  unfold Peers.update_where_id_user.
  induction rows as [|x l IH]; [reflexivity|]. cbn [map List.filter].
  destruct (decide (Peers.id x = peerId ∧ Peers.user_id x = userId)) as [Hx|Hx].
  - rewrite owned_by_apply.
    assert (Hown : owned_by peerId userId x = true)
      by (apply bool_decide_eq_true_2, Hx).
    rewrite Hown. cbn [map]. f_equal. exact IH.
  - assert (Hown : owned_by peerId userId x = false)
      by (apply bool_decide_eq_false_2, Hx).
    rewrite Hown. exact IH.
Qed.

Lemma same_id_same_row rows a b :
  NoDup (map Peers.id rows) -> a ∈ rows -> b ∈ rows ->
  Peers.id a = Peers.id b -> a = b.
Proof.
  induction rows as [|z l IH]; intros Hnd Ha Hb Hid; [inversion Ha|].
  cbn [map] in Hnd. apply NoDup_cons in Hnd as [Hz Hnd].
  apply elem_of_cons in Ha as [->|Ha], Hb as [->|Hb]; try reflexivity.
  - exfalso. apply Hz. rewrite Hid. apply list_elem_of_fmap_2, Hb.
  - exfalso. apply Hz. rewrite <- Hid. apply list_elem_of_fmap_2, Ha.
  - apply IH; assumption.
Qed.

(** An update that names no column changes no row. *)
Lemma update_nothing peerId userId rows :
  Peers.update_where_id_user peerId userId (presentData Live.Truthy) rows = rows.
Proof.
  unfold Peers.update_where_id_user. rewrite <- (map_id rows) at 2.
  apply map_ext. intros x. destruct (decide _); [|reflexivity]. destruct x; reflexivity.
Qed.

(** C10.  Take a peer row whose public key the parser has not stored.
    When [peers[key]] reads as nothing, [getPeerStatus] by the owner
    writes status disconnected and no last handshake to the row, and
    leaves [transfer_rx], [transfer_tx] and [endpoint] as they were,
    where a successful run of [syncWireGuardStatus] on the same store
    and snapshot writes 0, 0 and no endpoint.  When the key is the name
    of a function that every object inherits, [constructor] for one,
    [getPeerStatus] does not take that branch: it sends an update whose
    fields are all [undefined], and the store stays as it was. *)
Theorem getPeerStatus_absent_by_key env db r :
  NoDup (map Peers.id (wireguard_peers db)) ->
  r ∈ wireguard_peers db ->
  peers (getWireGuardStatus (now env) (wg_show env)) !! Peers.public_key r = None ->
  let wgPeer :=
    Live.get (proto_accessor env) (peers (getWireGuardStatus (now env) (wg_show env)))
      (Peers.public_key r) in
  let asked := getPeerStatus env (Peers.user_id r) (Peers.id r) db in
  (wgPeer = Live.Falsy ->
   peer_update env (Peers.id r) = Applied ->
   exists r',
     asked.2 = Ok r' /\
     r' ∈ wireguard_peers asked.1 /\
     (forall x, x ∈ wireguard_peers asked.1 -> Peers.id x = Peers.id r -> x = r') /\
     Peers.id r' = Peers.id r /\
     Peers.status r' = disconnected /\
     Peers.last_handshake r' = None /\
     Peers.transfer_rx r' = Peers.transfer_rx r /\
     Peers.transfer_tx r' = Peers.transfer_tx r /\
     Peers.endpoint r' = Peers.endpoint r) /\
  (Peers.public_key r ∈ Live.object_functions -> asked.1 = db) /\
  (forall body,
     wgPeer = Live.Falsy ->
     peer_update env (Peers.id r) = Applied ->
     (syncWireGuardStatus env db).2 = Ok body ->
     exists r',
       r' ∈ wireguard_peers (syncWireGuardStatus env db).1 /\
       Peers.id r' = Peers.id r /\
       Peers.status r' = disconnected /\
       Peers.last_handshake r' = None /\
       Peers.transfer_rx r' = Some 0 /\
       Peers.transfer_tx r' = Some 0 /\
       Peers.endpoint r' = None).
Proof.
  intros Hnd Hin Hnone wgPeer asked. split; [|split].
  - intros Habsent Happlied. subst wgPeer asked.
    exists (Peers.apply absentData r).
    unfold getPeerStatus. rewrite (filter_owned _ r Hnd Hin). cbn [single].
    rewrite Habsent, Happlied. cbn [Live.truthy].
    rewrite filter_owned_updated, (filter_owned _ r Hnd Hin).
    cbn [map single fst snd wireguard_peers].
    assert (Hrow : Peers.apply absentData r
                   ∈ Peers.update_where_id_user (Peers.id r) (Peers.user_id r)
                       absentData (wireguard_peers db)).
    { unfold Peers.update_where_id_user.
      apply list_elem_of_fmap. exists r. split; [|exact Hin].
      rewrite decide_True by auto. reflexivity. }
    split; [reflexivity|]. split; [exact Hrow|]. split; [|repeat split; reflexivity].
    intros x Hx Hid. refine (same_id_same_row _ _ _ _ Hx Hrow Hid).
    unfold Peers.update_where_id_user. rewrite map_map.
    erewrite map_ext; [exact Hnd|]. intros y. cbn. destruct (decide _); reflexivity.
  - intros Hkey. subst wgPeer asked. unfold getPeerStatus.
    rewrite (filter_owned _ r Hnd Hin). cbn [single].
    rewrite (get_function _ _ _ Hnone Hkey). cbn [Live.truthy].
    destruct (peer_update env (Peers.id r)); try reflexivity.
    rewrite update_nothing, (filter_owned _ r Hnd Hin). cbn [single fst].
    destruct db; reflexivity.
  - intros body Habsent Happlied Hok. subst wgPeer.
    exists (Peers.apply (updateData (now env) Live.Falsy) r).
    split; [exact (sync_absent_row env db body r Hnd Hok Hin Habsent Happlied)|].
    repeat split; reflexivity.
Qed.

Lemma getPeerStatus_absent_by_key_witness :
  let env := quiet_env 1700000000000 all_applied in
  let db := MkDb named_peers [server_row] in
  (exists r',
     (getPeerStatus env "user-1" "1" db).2 = Ok r' /\
     Peers.status r' = disconnected /\
     Peers.last_handshake r' = None /\
     Peers.transfer_rx r' = Some 4096 /\
     Peers.endpoint r' = Some "203.0.113.9:51820") /\
  (getPeerStatus env "user-1" "2" db).1 = db /\
  (exists r',
     r' ∈ wireguard_peers (syncWireGuardStatus env db).1 /\
     Peers.id r' = "1" /\
     Peers.status r' = disconnected /\
     Peers.transfer_rx r' = Some 0 /\
     Peers.endpoint r' = None).
Proof.
  intros env db.
  pose proof (getPeerStatus_absent_by_key env db (peer_row "1" "KEY1")
                named_peers_distinct (list_elem_of_here _ _) eq_refl)
    as (Hfirst & _ & Hsync).
  pose proof (getPeerStatus_absent_by_key env db (peer_row "2" "constructor")
                named_peers_distinct
                (list_elem_of_further _ _ _ (list_elem_of_here _ _)) eq_refl)
    as (_ & Hsecond & _).
  split; [|split].
  - destruct Hfirst as (r' & Hok & _ & _ & _ & Hstatus & Hlast & Hrx & _ & Hendpoint);
      [vm_compute; reflexivity|reflexivity|].
    exists r'. repeat split; assumption.
  - apply Hsecond. apply list_elem_of_here.
  - destruct (Hsync (MkSync true (Some quiet_interface) 2))
      as (r' & Hrow & Hid & Hstatus & _ & Hrx & _ & Hendpoint);
      [vm_compute; reflexivity|reflexivity|vm_compute; reflexivity|].
    exists r'. repeat split; assumption.
Defined.

(** * Further properties *)

(** ** The matcher *)

Section MatcherFacts.
Context {R : Type}.
Implicit Types (k : list ascii -> captures -> option R).

(** A match hands the continuation a suffix of its input. *)
Lemma run_suffix r : forall s c k x,
  run r s c k = Some x ->
  exists s' c', s' `suffix_of` s /\ k s' c' = Some x.
Proof.
  induction r as [|p|r1 IH1 r2 IH2|r1 IH1 r2 IH2|greedy r1 IH1|n r1 IH1];
    intros s c k x; cbn [run].
  - intros H. exists s, c. split; [reflexivity|exact H].
  - destruct s as [|a s']; [discriminate|].
    destruct (p a); [|discriminate]. intros H.
    exists s', c. split; [apply suffix_cons_r; reflexivity|exact H].
  - intros H. apply IH1 in H as (s1 & c1 & Hs1 & H).
    apply IH2 in H as (s2 & c2 & Hs2 & H).
    exists s2, c2. split; [etrans; eassumption|exact H].
  - destruct (run r1 s c k) eqn:H1.
    + intros [= ->]. apply IH1 in H1. exact H1.
    + apply IH2.
  - generalize (length s). intros n. revert s c.
    induction n as [|n IHn]; intros s c.
    + intros H. exists s, c. split; [reflexivity|exact H].
    + cbn beta iota. destruct greedy.
      * destruct (run r1 s c _) eqn:H1.
        -- intros [= ->]. apply IH1 in H1 as (s1 & c1 & Hs1 & H).
           destruct (Nat.ltb _ _); [|discriminate].
           apply IHn in H as (s2 & c2 & Hs2 & H).
           exists s2, c2. split; [etrans; eassumption|exact H].
        -- intros H. exists s, c. split; [reflexivity|exact H].
      * destruct (k s c) eqn:Hk.
        -- intros [= ->]. exists s, c. split; [reflexivity|exact Hk].
        -- intros H1. apply IH1 in H1 as (s1 & c1 & Hs1 & H).
           destruct (Nat.ltb _ _); [|discriminate].
           apply IHn in H as (s2 & c2 & Hs2 & H).
           exists s2, c2. split; [etrans; eassumption|exact H].
  - intros H. apply IH1 in H as (s1 & c1 & Hs1 & H).
    eexists _, _. split; [exact Hs1|exact H].
Qed.
End MatcherFacts.

Lemma includes_list_suffix p t s :
  t `suffix_of` s -> Str.includes_list p t = true -> Str.includes_list p s = true.
Proof.
  intros [pre ->]. induction pre as [|a pre IH]; intros H; [exact H|].
  cbn [app Str.includes_list]. rewrite (IH H). apply orb_true_r.
Qed.

Lemma is_prefix_includes p s :
  Str.is_prefix p s = true -> Str.includes_list p s = true.
Proof. intros H. destruct s; cbn [Str.includes_list]; rewrite H; reflexivity. Qed.

Lemma needs_Lit w : needs w (Lit w).
Proof.
  intros R s c k x H. apply is_prefix_includes. revert s H.
  unfold Lit. induction (Str.chars w) as [|a l IH]; intros s; [reflexivity|].
  cbn [fold_right run Str.is_prefix].
  destruct s as [|b s]; [discriminate|].
  destruct (Ascii.eqb a b); [|discriminate]. apply IH.
Qed.

Lemma needs_Seq_l w a b : needs w a -> needs w (Seq a b).
Proof. intros Ha R s c k x H. cbn [run] in H. exact (Ha _ _ _ _ _ H). Qed.

Lemma needs_Seq_r w a b : needs w b -> needs w (Seq a b).
Proof.
  intros Hb R s c k x H. cbn [run] in H.
  apply run_suffix in H as (s1 & c1 & Hs1 & H).
  exact (includes_list_suffix _ _ _ Hs1 (Hb _ _ _ _ _ H)).
Qed.

Lemma needs_Group w n r : needs w r -> needs w (Group n r).
Proof. intros Hr R s c k x H. cbn [run] in H. exact (Hr _ _ _ _ _ H). Qed.

Lemma search_suffix r s m :
  search r s = Some m -> exists t, t `suffix_of` s /\ match_here r t = Some m.
Proof.
  induction s as [|a s IH]; cbn [search].
  - destruct (match_here r []) eqn:H; [|discriminate].
    intros [= ->]. exists []. split; [reflexivity|exact H].
  - destruct (match_here r (a :: s)) eqn:H.
    + intros [= ->]. exists (a :: s). split; [reflexivity|exact H].
    + intros Hs. apply IH in Hs as (t & Ht & Hm).
      exists t. split; [apply suffix_cons_r, Ht|exact Hm].
Qed.

(** An expression that needs [w] finds nothing in a text without [w]. *)
Lemma search_without w r text :
  needs w r -> Str.includes text w = false -> match_first r text = None.
Proof.
  intros Hr Hw. unfold match_first.
  destruct (search r (Str.chars text)) as [m|] eqn:Hs; [|reflexivity].
  apply search_suffix in Hs as (t & Ht & Hm). unfold match_here in Hm.
  apply Hr in Hm. unfold Str.includes in Hw.
  rewrite (includes_list_suffix _ _ _ Ht Hm) in Hw. discriminate.
Qed.

Lemma match_all_without w r text :
  needs w r -> Str.includes text w = false -> match_all r text = None.
Proof.
  intros Hr Hw. pose proof (search_without w r text Hr Hw) as Hs.
  unfold match_first in Hs. unfold match_all. cbn [Nat.add search_all].
  rewrite Hs. reflexivity.
Qed.

Lemma re_duration_needs_ago : needs "ago" re_duration.
Proof. do 5 apply needs_Seq_r. apply needs_Lit. Qed.

Lemma re_seconds_needs_second : needs "second" re_seconds.
Proof. do 2 apply needs_Seq_r. apply needs_Seq_l, needs_Lit. Qed.

Lemma re_minutes_needs_minute : needs "minute" re_minutes.
Proof. do 2 apply needs_Seq_r. apply needs_Seq_l, needs_Lit. Qed.

Lemma re_seconds_needs_ago : needs "ago" re_seconds.
Proof. do 5 apply needs_Seq_r. apply needs_Lit. Qed.

Lemma re_minutes_needs_ago : needs "ago" re_minutes.
Proof. do 5 apply needs_Seq_r. apply needs_Lit. Qed.

Lemma re_amount_needs_B : needs "B" re_amount.
Proof. do 2 apply needs_Seq_r. apply needs_Group. do 2 apply needs_Seq_r. apply needs_Lit. Qed.

Lemma re_transfer_needs_received : needs "received," re_transfer.
Proof. do 4 apply needs_Seq_r. apply needs_Seq_l, needs_Lit. Qed.

(** ** Handshake texts *)

(** X1.  A handshake text that does not hold the word [ago] gives no
    handshake time, at any clock, and is not a recent handshake:
    both functions read nothing but clauses that end in [ago]. *)
Theorem no_ago_no_handshake now text :
  Str.includes text "ago" = false ->
  parseHandshakeTime now text = Normal None /\ isRecentHandshake text = false.
Proof.
  intros Hago. split.
  - unfold parseHandshakeTime, total_seconds.
    rewrite (match_all_without _ _ _ re_duration_needs_ago Hago).
    destruct (mentions_never text); reflexivity.
  - unfold isRecentHandshake.
    rewrite (search_without _ _ _ re_seconds_needs_ago Hago).
    rewrite (search_without _ _ _ re_minutes_needs_ago Hago).
    destruct (mentions_never text); reflexivity.
Qed.

Lemma no_ago_no_handshake_witness :
  parseHandshakeTime 1700000000000 "27 seconds" = Normal None /\
  isRecentHandshake "27 seconds" = false.
Proof. apply (no_ago_no_handshake 1700000000000 "27 seconds"). reflexivity. Defined.

Lemma isRecentHandshake_without text :
  Str.includes text "second" = false ->
  Str.includes text "minute" = false ->
  isRecentHandshake text = false.
Proof.
  intros Hs Hm. unfold isRecentHandshake.
  rewrite (search_without _ _ _ re_seconds_needs_second Hs).
  rewrite (search_without _ _ _ re_minutes_needs_minute Hm).
  destruct (mentions_never text); reflexivity.
Qed.

(** X2.  A handshake text that holds neither [second] nor [minute] is
    never a recent handshake: a peer whose last handshake is told in
    hours or days alone is not connected. *)
Theorem recent_needs_seconds_or_minutes text :
  Str.includes text "second" = false ->
  Str.includes text "minute" = false ->
  isRecentHandshake text = false.
Proof. exact (isRecentHandshake_without text). Qed.

Lemma recent_needs_seconds_or_minutes_witness :
  isRecentHandshake "2 days, 3 hours ago" = false.
Proof.
  apply (recent_needs_seconds_or_minutes "2 days, 3 hours ago"); reflexivity.
Defined.

(** ** Transfer amounts *)

(** X3.  A transfer text without the letter [B] counts as 0 bytes,
    whatever number it holds: every unit that the expression of
    [parseTransferAmount] accepts ends in [B]. *)
Theorem no_unit_no_bytes text :
  Str.includes text "B" = false -> parseTransferAmount text = Num.Int 0.
Proof.
  intros HB. unfold parseTransferAmount.
  rewrite (search_without _ _ _ re_amount_needs_B HB). reflexivity.
Qed.

Lemma no_unit_no_bytes_witness : parseTransferAmount "1048576 bytes" = Num.Int 0.
Proof. apply (no_unit_no_bytes "1048576 bytes"). reflexivity. Defined.

(** ** Texts of one clause *)

Section Greedy.
Context {R : Type}.

(** A greedy run of digits takes them all when the rest then matches. *)
Lemma run_star_digits ds : forall tail c (k : list ascii -> captures -> option R) x,
  Forall (fun a => Str.is_digit a = true) ds ->
  starts_with_digit tail = false ->
  k tail c = Some x ->
  run (Star true digit) (ds ++ tail) c k = Some x.
Proof.
  intros tail c k x Hds Htail Hk. cbn [run].
  assert (Hn : (length ds <= length (ds ++ tail))%nat)
    by (rewrite length_app; lia).
  revert Hn. generalize (length (ds ++ tail)). intros n. revert n.
  induction Hds as [|d ds Hd Hds IH]; intros n Hn.
  - cbn [app]. destruct n as [|n]; [exact Hk|].
    cbn beta iota. destruct tail as [|a tail]; cbn [run digit].
    + exact Hk.
    + cbn [starts_with_digit] in Htail. unfold digit. cbn [run]. rewrite Htail. exact Hk.
  - destruct n as [|n]; [cbn [length] in Hn; lia|].
    cbn [app]. cbn beta iota. unfold digit at 1. cbn [run]. rewrite Hd.
    replace (Nat.ltb (length (ds ++ tail)) (length (d :: ds ++ tail))) with true
      by (symmetry; apply Nat.ltb_lt; cbn [length]; lia).
    rewrite IH by (cbn [length] in Hn; lia). reflexivity.
Qed.

Lemma run_plus_digits ds tail c (k : list ascii -> captures -> option R) x :
  decimal_digits ds ->
  starts_with_digit tail = false ->
  k tail c = Some x ->
  run (Plus digit) (ds ++ tail) c k = Some x.
Proof.
  intros [Hne Hds] Htail Hk. destruct Hds as [|d ds Hd Hds]; [congruence|].
  unfold Plus. cbn [run app]. unfold digit at 1. cbn [run]. rewrite Hd.
  apply run_star_digits; assumption.
Qed.
End Greedy.

Lemma run_Seq {R} a b s c (k : list ascii -> captures -> option R) :
  run (Seq a b) s c k = run a s c (fun s' c' => run b s' c' k).
Proof. reflexivity. Qed.

Lemma run_Group {R} n r s c (k : list ascii -> captures -> option R) :
  run (Group n r) s c k
  = run r s c (fun s' c' => k s' ((n, firstn (length s - length s') s) :: c')).
Proof. reflexivity. Qed.

Lemma duration_rest_tail {R} u plural c (k : list ascii -> captures -> option R) x :
  k [] ((2%nat, Str.chars (unit_name u)) :: c) = Some x ->
  run duration_rest (Str.chars (clause_tail u plural)) c k = Some x.
Proof.
  intros H. destruct u, plural; vm_compute in H |- *; rewrite H; reflexivity.
Qed.

Lemma take_prefix (ds tail : list ascii) :
  firstn (length (ds ++ tail) - length tail) (ds ++ tail) = ds.
Proof.
  rewrite length_app, Nat.add_sub. apply take_app_length.
Qed.

Lemma take_whole (s : list ascii) : firstn (length s - length (@nil ascii)) s = s.
Proof. cbn [length]. rewrite Nat.sub_0_r. apply firstn_all. Qed.

Lemma tail_no_digit u plural :
  starts_with_digit (Str.chars (clause_tail u plural)) = false.
Proof. destruct u, plural; reflexivity. Qed.

(** On the text of one clause the expression of [parseHandshakeTime]
    matches the whole text, the number in group 1, the unit in group 2. *)
Lemma match_here_duration ds u plural :
  decimal_digits ds ->
  match_here re_duration (ds ++ Str.chars (clause_tail u plural))
  = Some (Result (Str.unchars (ds ++ Str.chars (clause_tail u plural)))
            [(2%nat, Str.chars (unit_name u)); (1%nat, ds)] []).
Proof.
  intros Hds. unfold match_here.
  change re_duration with (Group 1 (Plus digit) · duration_rest).
  rewrite run_Seq, run_Group.
  apply run_plus_digits; [exact Hds|apply tail_no_digit|].
  apply duration_rest_tail. rewrite take_prefix, take_whole. reflexivity.
Qed.

(** *** Numbers written in digits *)

Lemma digit_cases c :
  Str.is_digit c = true ->
  c ∈ ["0"; "1"; "2"; "3"; "4"; "5"; "6"; "7"; "8"; "9"]%char.
Proof.
  destruct c as [[] [] [] [] [] [] [] []]; intros H; try discriminate H;
    clear H; set_solver.
Qed.

Lemma digit_facts c :
  Str.is_digit c = true ->
  Str.is_space c = false /\ Num.is_x c = false /\
  Num.hex_value c = Some (Num.digit_value c) /\
  0 <= Num.digit_value c < 10.
Proof.
  intros H. apply digit_cases in H.
  repeat (apply elem_of_cons in H as [->|H];
          [vm_compute; repeat split; (reflexivity || discriminate)|]).
  inversion H.
Qed.

Lemma chars_unchars l : Str.chars (Str.unchars l) = l.
Proof. apply list_ascii_of_string_of_list_ascii. Qed.

Lemma unchars_chars s : Str.unchars (Str.chars s) = s.
Proof. apply string_of_list_ascii_of_string. Qed.

Lemma chars_app a b : Str.chars (a ++ b) = (Str.chars a ++ Str.chars b)%list.
Proof.
  unfold Str.chars. induction a as [|c a IH]; [reflexivity|].
  simpl. f_equal. exact IH.
Qed.

Lemma digits_prefix_digits ds : forall acc seen,
  Forall (fun c => Str.is_digit c = true) ds ->
  Num.digits_prefix 10 acc seen ds
  = (fold_left (fun acc c => acc * 10 + Num.digit_value c) ds acc,
     seen || negb (bool_decide (ds = []))).
Proof.
  induction ds as [|d ds IH]; intros acc seen Hds.
  - cbn [Num.digits_prefix fold_left]. rewrite orb_false_r. reflexivity.
  - inversion Hds as [|? ? Hd Hds']; subst.
    destruct (digit_facts d Hd) as (_ & _ & Hhex & Hrange).
    cbn [Num.digits_prefix fold_left]. rewrite Hhex.
    replace (Num.digit_value d <? 10) with true by (symmetry; apply Z.ltb_lt; lia).
    rewrite IH by exact Hds'. rewrite orb_true_r. reflexivity.
Qed.

(** [parseInt] reads a text of digits as its decimal value. *)
Lemma parseInt_digits ds :
  decimal_digits ds -> Num.parseInt (Str.unchars ds) = Num.Int (decimal_value ds).
Proof.
  intros [Hne Hds]. unfold Num.parseInt. rewrite chars_unchars.
  destruct ds as [|d ds]; [congruence|].
  inversion Hds as [|? ? Hd Hds']; subst.
  destruct (digit_facts d Hd) as (Hsp & _ & _ & _).
  cbn [Str.drop_spaces]. rewrite Hsp.
  assert (Hrest : Num.digits_prefix 10 0 false (d :: ds)
                  = (decimal_value (d :: ds), true)).
  { rewrite digits_prefix_digits by exact Hds. reflexivity. }
  pose proof (digit_cases d Hd) as Hcase.
  repeat (apply elem_of_cons in Hcase as [->|Hcase];
          [try (rewrite Hrest; reflexivity)|]); [|inversion Hcase].
  destruct ds as [|x ds]; [rewrite Hrest; reflexivity|].
  inversion Hds' as [|? ? Hx _]; subst.
  destruct (digit_facts x Hx) as (_ & Hnx & _ & _).
  cbv beta iota. rewrite Hnx, Hrest. reflexivity.
Qed.

Lemma includes_skip_digits p0 p ds tail :
  Str.is_digit p0 = false ->
  Forall (fun c => Str.is_digit c = true) ds ->
  Str.includes_list (p0 :: p) (ds ++ tail) = Str.includes_list (p0 :: p) tail.
Proof.
  intros Hp0 Hds. induction Hds as [|d ds Hd Hds IH]; [reflexivity|].
  cbn [app Str.includes_list Str.is_prefix].
  destruct (Ascii.eqb_spec p0 d) as [->|_]; [congruence|].
  rewrite IH. reflexivity.
Qed.

Lemma chars_clause_text ds u plural :
  Str.chars (clause_text ds u plural) = (ds ++ Str.chars (clause_tail u plural))%list.
Proof. unfold clause_text. rewrite chars_app, chars_unchars. reflexivity. Qed.

Lemma clause_text_unchars ds u plural :
  clause_text ds u plural = Str.unchars (ds ++ Str.chars (clause_tail u plural)).
Proof. rewrite <- chars_clause_text, unchars_chars. reflexivity. Qed.

Lemma clause_never ds u plural :
  decimal_digits ds -> mentions_never (clause_text ds u plural) = false.
Proof.
  intros [_ Hds]. unfold mentions_never, Str.includes.
  rewrite chars_clause_text.
  change (Str.chars "Never") with ("N"%char :: Str.chars "ever").
  change (Str.chars "never") with ("n"%char :: Str.chars "ever").
  rewrite !includes_skip_digits by (exact Hds || reflexivity).
  destruct u, plural; reflexivity.
Qed.

Lemma search_clause ds u plural :
  decimal_digits ds ->
  search re_duration (ds ++ Str.chars (clause_tail u plural))
  = Some (Result (clause_text ds u plural)
            [(2%nat, Str.chars (unit_name u)); (1%nat, ds)] []).
Proof.
  intros Hds. rewrite clause_text_unchars.
  destruct (ds ++ Str.chars (clause_tail u plural))%list eqn:E;
    cbn [search]; rewrite <- E, match_here_duration by exact Hds; rewrite E; reflexivity.
Qed.

Lemma clause_seconds_clause ds u plural :
  decimal_digits ds ->
  clause_seconds (clause_text ds u plural) = decimal_value ds * unit_seconds u.
Proof.
  intros Hds. unfold clause_seconds, match_first.
  rewrite chars_clause_text, search_clause by exact Hds.
  cbn [groups group find fst snd Nat.eqb].
  rewrite parseInt_digits by exact Hds.
  destruct u; vm_compute (String.eqb _ _); cbv iota; unfold unit_seconds; lia.
Qed.

Lemma match_all_clause ds u plural :
  decimal_digits ds ->
  match_all re_duration (clause_text ds u plural) = Some [clause_text ds u plural].
Proof.
  intros Hds. unfold match_all. cbn [Nat.add search_all].
  rewrite chars_clause_text, search_clause by exact Hds. cbn [whole rest].
  assert (Hne : Str.is_empty (clause_text ds u plural) = false).
  { destruct Hds as [Hne _]. destruct ds; [congruence|reflexivity]. }
  rewrite Hne.
  replace (search re_duration []) with (@None result) by (vm_compute; reflexivity).
  reflexivity.
Qed.

(** A text of one clause resolves to its number times its unit. *)
Lemma total_seconds_clause ds u plural :
  decimal_digits ds ->
  total_seconds (clause_text ds u plural) = Some (decimal_value ds * unit_seconds u).
Proof.
  intros Hds. unfold total_seconds. rewrite match_all_clause by exact Hds.
  cbn [fold_left]. rewrite clause_seconds_clause by exact Hds. reflexivity.
Qed.

(** X4.  On a text of one clause, a decimal number, a unit (second,
    minute, hour or day, with or without its plural) and [ago],
    [parseHandshakeTime] returns the clock less the number times the
    seconds of the unit, in milliseconds, when that is a time a [Date]
    holds; when it is not, the call throws a [RangeError]. *)
Theorem parseHandshakeTime_one_clause now ds u plural :
  decimal_digits ds ->
  let handshakeTime := now - decimal_value ds * unit_seconds u * 1000 in
  (Z.abs handshakeTime <= max_time ->
   parseHandshakeTime now (clause_text ds u plural) = Normal (Some handshakeTime)) /\
  (max_time < Z.abs handshakeTime ->
   parseHandshakeTime now (clause_text ds u plural) = Throw RangeError).
Proof.
  intros Hds handshakeTime.
  rewrite (parseHandshakeTime_unfold now _ _ (clause_never ds u plural Hds)
             (total_seconds_clause ds u plural Hds)).
  fold handshakeTime. unfold toISOString.
  destruct (Z.leb_spec (Z.abs handshakeTime) max_time); split; intros;
    (reflexivity || lia).
Qed.

Lemma parseHandshakeTime_one_clause_witness :
  parseHandshakeTime 1700000000000 "27 minutes ago"
    = Normal (Some (1700000000000 - 27 * 60 * 1000)) /\
  parseHandshakeTime 1700000000000 "99999999999 days ago" = Throw RangeError.
Proof.
  assert (Htwo : decimal_digits ["2"; "7"]%char)
    by (split; [discriminate|repeat constructor]).
  assert (Hmany : decimal_digits
            ["9"; "9"; "9"; "9"; "9"; "9"; "9"; "9"; "9"; "9"; "9"]%char)
    by (split; [discriminate|repeat constructor]).
  split.
  - apply (parseHandshakeTime_one_clause 1700000000000 _ Minute true Htwo).
    vm_compute. discriminate.
  - apply (parseHandshakeTime_one_clause 1700000000000 _ Day true Hmany).
    vm_compute. reflexivity.
Defined.

Lemma seconds_rest_tail {R} plural c (k : list ascii -> captures -> option R) x :
  k [] c = Some x ->
  run seconds_rest (Str.chars (clause_tail Second plural)) c k = Some x.
Proof. intros H. destruct plural; vm_compute; rewrite H; reflexivity. Qed.

Lemma minutes_rest_tail {R} plural c (k : list ascii -> captures -> option R) x :
  k [] c = Some x ->
  run minutes_rest (Str.chars (clause_tail Minute plural)) c k = Some x.
Proof. intros H. destruct plural; vm_compute; rewrite H; reflexivity. Qed.

Lemma search_head r (s : list ascii) m :
  match_here r s = Some m -> search r s = Some m.
Proof. intros H. destruct s; cbn [search]; rewrite H; reflexivity. Qed.

Lemma match_first_seconds ds plural :
  decimal_digits ds ->
  match_first re_seconds (clause_text ds Second plural)
  = Some (Result (clause_text ds Second plural) [(1%nat, ds)] []).
Proof.
  intros Hds. unfold match_first. rewrite chars_clause_text.
  apply search_head. unfold match_here.
  change re_seconds with (Group 1 (Plus digit) · seconds_rest).
  rewrite run_Seq, run_Group.
  apply run_plus_digits; [exact Hds|apply tail_no_digit|].
  apply seconds_rest_tail.
  rewrite take_prefix, take_whole, clause_text_unchars. reflexivity.
Qed.

Lemma match_first_minutes ds plural :
  decimal_digits ds ->
  match_first re_minutes (clause_text ds Minute plural)
  = Some (Result (clause_text ds Minute plural) [(1%nat, ds)] []).
Proof.
  intros Hds. unfold match_first. rewrite chars_clause_text.
  apply search_head. unfold match_here.
  change re_minutes with (Group 1 (Plus digit) · minutes_rest).
  rewrite run_Seq, run_Group.
  apply run_plus_digits; [exact Hds|apply tail_no_digit|].
  apply minutes_rest_tail.
  rewrite take_prefix, take_whole, clause_text_unchars. reflexivity.
Qed.

(** Whether the text of a clause holds a word that starts with a
    letter is decided by what follows the digits. *)
Lemma clause_includes ds u plural p0 p :
  decimal_digits ds -> Str.is_digit p0 = false ->
  Str.includes (clause_text ds u plural) (String p0 p)
  = Str.includes_list (p0 :: Str.chars p) (Str.chars (clause_tail u plural)).
Proof.
  intros [_ Hds] Hp0. unfold Str.includes. rewrite chars_clause_text.
  change (Str.chars (String p0 p)) with (p0 :: Str.chars p).
  apply includes_skip_digits; assumption.
Qed.

Lemma recent_one_clause ds u plural :
  decimal_digits ds ->
  isRecentHandshake (clause_text ds u plural)
  = match u with
    | Second => decimal_value ds <=? 180
    | Minute => decimal_value ds <=? 3
    | Hour | Day => false
    end.
Proof.
  intros Hds. destruct u.
  - unfold isRecentHandshake.
    rewrite clause_never, match_first_seconds by exact Hds.
    cbn [groups group find fst snd Nat.eqb whole].
    rewrite parseInt_digits by exact Hds.
    rewrite (clause_includes ds Second plural "m" "inute" Hds eq_refl).
    destruct plural; reflexivity.
  - unfold isRecentHandshake.
    rewrite clause_never by exact Hds.
    rewrite (search_without "second" re_seconds _ re_seconds_needs_second)
      by (rewrite (clause_includes ds Minute plural "s" "econd" Hds eq_refl);
          destruct plural; reflexivity).
    rewrite match_first_minutes by exact Hds.
    cbn [groups group find fst snd Nat.eqb whole].
    rewrite parseInt_digits by exact Hds.
    rewrite (clause_includes ds Minute plural "m" "inute" Hds eq_refl).
    destruct plural; reflexivity.
  - apply isRecentHandshake_without.
    + rewrite (clause_includes ds Hour plural "s" "econd" Hds eq_refl).
      destruct plural; reflexivity.
    + rewrite (clause_includes ds Hour plural "m" "inute" Hds eq_refl).
      destruct plural; reflexivity.
  - apply isRecentHandshake_without.
    + rewrite (clause_includes ds Day plural "s" "econd" Hds eq_refl).
      destruct plural; reflexivity.
    + rewrite (clause_includes ds Day plural "m" "inute" Hds eq_refl).
      destruct plural; reflexivity.
Qed.

(** X5.  On a text of one clause [isRecentHandshake] holds exactly
    when the unit is the second and the number is at most 180, or the
    unit is the minute and the number is at most 3.  When the number is
    not zero this is the window of three minutes on the seconds that
    [parseHandshakeTime] resolves the same text to. *)
Theorem isRecentHandshake_one_clause ds u plural :
  decimal_digits ds ->
  isRecentHandshake (clause_text ds u plural)
  = match u with
    | Second => decimal_value ds <=? 180
    | Minute => decimal_value ds <=? 3
    | Hour | Day => false
    end /\
  (0 < decimal_value ds ->
   exists total,
     total_seconds (clause_text ds u plural) = Some total /\
     isRecentHandshake (clause_text ds u plural) = (total <=? 180)).
Proof.
  intros Hds. split; [exact (recent_one_clause ds u plural Hds)|].
  intros Hpos. exists (decimal_value ds * unit_seconds u).
  split; [exact (total_seconds_clause ds u plural Hds)|].
  rewrite (recent_one_clause ds u plural Hds).
  destruct u; unfold unit_seconds;
    repeat match goal with
           | |- context [?a <=? ?b] => destruct (Z.leb_spec a b)
           end; (reflexivity || lia).
Qed.

Lemma isRecentHandshake_one_clause_witness :
  isRecentHandshake "3 minutes ago" = true /\
  isRecentHandshake "4 minutes ago" = false /\
  isRecentHandshake "1 hour ago" = false /\
  exists total,
    total_seconds "1 hour ago" = Some total /\
    isRecentHandshake "1 hour ago" = (total <=? 180).
Proof.
  assert (H1 : decimal_digits ["1"]%char) by (split; [discriminate|repeat constructor]).
  assert (H3 : decimal_digits ["3"]%char) by (split; [discriminate|repeat constructor]).
  assert (H4 : decimal_digits ["4"]%char) by (split; [discriminate|repeat constructor]).
  split; [exact (proj1 (isRecentHandshake_one_clause _ Minute true H3))|].
  split; [exact (proj1 (isRecentHandshake_one_clause _ Minute true H4))|].
  split; [exact (proj1 (isRecentHandshake_one_clause _ Hour false H1))|].
  apply (proj2 (isRecentHandshake_one_clause _ Hour false H1)). reflexivity.
Defined.

(** ** The sign of a transfer amount *)

Lemma round_sign_clear mx ex lx :
  sign_clear (binary_round_aux 53 1024 false mx ex lx).
Proof.
  unfold binary_round_aux.
  destruct (shr_fexp 53 1024 mx ex lx) as [mrs e].
  destruct (shr_fexp 53 1024 _ e _) as [mrs' e'].
  destruct (shr_m mrs'); [reflexivity| |exact I].
  destruct (Z.leb _ _); reflexivity.
Qed.

Lemma mul_sign_clear x y :
  sign_clear x -> sign_clear y -> sign_clear (Num.b64_mul x y).
Proof.
  unfold Num.b64_mul.
  destruct x as [sx|sx| |sx mx ex], y as [sy|sy| |sy my ey];
    cbn [sign_clear SFmul]; intros; subst; try reflexivity; try exact I.
  apply round_sign_clear.
Qed.

Lemma div_sign_clear x y :
  sign_clear x -> sign_clear y -> sign_clear (Num.b64_div x y).
Proof.
  unfold Num.b64_div.
  destruct x as [sx|sx| |sx mx ex], y as [sy|sy| |sy my ey];
    cbn [sign_clear SFdiv]; intros; subst; try reflexivity; try exact I.
  destruct (SFdiv_core_binary _ _ _ _ _ _) as [[mz ez] lz].
  apply round_sign_clear.
Qed.

Lemma of_Z_sign_clear z : 0 <= z -> sign_clear (Num.b64_of_Z z).
Proof.
  intros Hz. unfold Num.b64_of_Z, binary_normalize.
  destruct z as [|p|p]; [reflexivity| |lia].
  unfold binary_round. destruct (shl_align _ _ _) as [mz ez].
  apply round_sign_clear.
Qed.

Lemma of_fraction_sign_clear m d : 0 <= m -> sign_clear (Num.b64_of_fraction m d).
Proof.
  intros Hm. unfold Num.b64_of_fraction.
  destruct m as [|m|m]; [reflexivity| |lia].
  destruct d as [|d|d]; [reflexivity| |reflexivity].
  apply div_sign_clear; reflexivity.
Qed.

Lemma decimal_not_negative l : forall acc n,
  0 <= acc -> 0 <= (Num.decimal acc n l).1.1.
Proof.
  induction l as [|c l IH]; intros acc n Hacc; cbn [Num.decimal]; [exact Hacc|].
  destruct (Str.is_digit c) eqn:Hc; [|exact Hacc].
  apply IH. destruct (digit_facts c Hc) as (_ & _ & _ & Hrange). lia.
Qed.

Lemma parseFloat_sign_clear s : sign_clear (Num.parseFloat s).
Proof.
  unfold Num.parseFloat.
  pose proof (decimal_not_negative (Str.chars s) 0 0 (Z.le_refl 0)) as Hip.
  destruct (Num.decimal 0 0 (Str.chars s)) as [[ip ni] l]. cbn [fst] in Hip.
  assert (Hm : forall m nf,
            0 <= m ->
            sign_clear match (ni + nf)%nat with
                       | O => S754_nan
                       | _ => Num.b64_of_fraction m (10 ^ Z.of_nat nf)
                       end).
  { intros m nf Hm. destruct (ni + nf)%nat; [exact I|].
    apply of_fraction_sign_clear, Hm. }
  destruct l as [|a l]; [apply Hm, Hip|].
  destruct (Ascii.eqb_spec a ".") as [->|Hne].
  - pose proof (decimal_not_negative l ip 0 Hip) as Hfr.
    destruct (Num.decimal ip 0 l) as [[m nf] rest]. apply Hm, Hfr.
  - destruct a as [[] [] [] [] [] [] [] []]; try (apply Hm, Hip). congruence.
Qed.

Lemma floor_not_negative x : sign_clear x -> not_negative (Num.floor x).
Proof.
  destruct x as [s|s| |s m e]; cbn [sign_clear Num.floor not_negative];
    intros Hs; subst; try reflexivity; try exact I; try lia.
  destruct (Z.leb_spec 0 e).
  - apply Z.mul_nonneg_nonneg; [lia|apply Z.pow_nonneg; lia].
  - apply Z.div_pos; [lia|apply Z.pow_pos_nonneg; lia].
Qed.

Lemma multiplier_positive unit : 0 < multiplier unit.
Proof.
  unfold multiplier.
  repeat (destruct (String.eqb unit _); [lia|]). lia.
Qed.

Lemma amount_not_negative transferText :
  not_negative (parseTransferAmount transferText).
Proof.
  unfold parseTransferAmount.
  destruct (match_first re_amount transferText) as [m|]; [|cbn; lia].
  destruct (group 1 (groups m)) as [digits|]; [|cbn; lia].
  destruct (group 2 (groups m)) as [unit|]; [|cbn; lia].
  apply floor_not_negative, mul_sign_clear.
  - apply parseFloat_sign_clear.
  - apply of_Z_sign_clear. pose proof (multiplier_positive unit). lia.
Qed.

(** X6.  [parseTransferAmount] never returns a number below zero, for
    any text: its result is an integer that is at least 0, or [NaN] (a
    number written with two points), or plus infinity. *)
Theorem parseTransferAmount_not_negative transferText :
  match parseTransferAmount transferText with
  | Num.Int bytes => 0 <= bytes
  | Num.NaN => True
  | Num.Infinity negative => negative = false
  end.
Proof. exact (amount_not_negative transferText). Qed.

(** ** What every snapshot satisfies *)

Lemma sound_flush st : sound_state st -> sound_peers (flush st).
Proof.
  intros [Hm Hc]. unfold flush. destruct (currentPeer st) as [p|]; [|exact Hm].
  intros key q. rewrite lookup_insert. case_decide as Hk.
  - intros [= <-]. split; [exact Hk|]. apply Hc. reflexivity.
  - apply Hm.
Qed.

Lemma sound_on_peer f st :
  (forall p, sound_peer p -> sound_peer (f p)) ->
  sound_state st -> sound_state (on_peer f st).
Proof.
  intros Hf [Hm Hc]. split; [exact Hm|]. cbn [on_peer currentPeer].
  intros p Hp. destruct (currentPeer st) as [q|]; [|discriminate].
  injection Hp as <-. apply Hf, Hc. reflexivity.
Qed.

Lemma sound_on_interface f st : sound_state st -> sound_state (on_interface f st).
Proof. intros [Hm Hc]. split; assumption. Qed.

Lemma sound_parse_line now st line st' :
  sound_state st -> parse_line now st line = Normal st' -> sound_state st'.
Proof.
  intros Hst. pose proof Hst as [Hm Hc]. unfold parse_line.
  repeat match goal with
         | |- (if Str.startsWith line ?p then _ else _) = _ -> _ =>
             destruct (Str.startsWith line p)
         end.
  - intros [= <-]. split; assumption.
  - destruct (currentPeer st) as [p0|] eqn:E; intros [= <-].
    + apply sound_on_peer; [|exact Hst]. intros q H. exact H.
    + apply sound_on_interface, Hst.
  - intros [= <-]. apply sound_on_interface, Hst.
  - intros [= <-]. split; [apply sound_flush, Hst|].
    cbn. intros p [= <-]. repeat split; cbn; discriminate.
  - intros [= <-]. apply sound_on_peer; [|exact Hst]. intros p H. exact H.
  - intros [= <-]. apply sound_on_peer; [|exact Hst]. intros p H. exact H.
  - destruct (currentPeer st) as [p|] eqn:E; [|intros [= <-]; exact Hst].
    destruct (parseHandshakeTime now _) as [t|e]; [|discriminate].
    intros [= <-]. split; [exact Hm|]. cbn. intros q [= <-].
    destruct Hst as [_ Hcur]. destruct (Hcur p E) as (_ & Hrx & Htx).
    repeat split; [destruct (isRecentHandshake _); discriminate|exact Hrx|exact Htx].
  - destruct (currentPeer st) as [p|] eqn:E; [|intros [= <-]; exact Hst].
    destruct (match_first re_transfer line) as [m|]; [|intros [= <-]; exact Hst].
    destruct (group 1 (groups m)) as [rx|]; [|intros [= <-]; exact Hst].
    destruct (group 2 (groups m)) as [tx|]; [|intros [= <-]; exact Hst].
    intros [= <-]. apply sound_on_peer; [|exact Hst].
    intros q (Hs & _ & _). repeat split; [exact Hs| |]; cbn;
      intros n [= <-]; apply amount_not_negative.
  - intros [= <-]. exact Hst.
Qed.

Lemma sound_parse_lines now lines : forall st st',
  sound_state st -> parse_lines now st lines = Normal st' -> sound_state st'.
Proof.
  induction lines as [|line lines IH]; intros st st' Hst; cbn [parse_lines].
  - intros [= <-]. exact Hst.
  - destruct (parse_line now st line) as [st1|e] eqn:E; [|discriminate].
    cbn. apply IH. exact (sound_parse_line now st line st1 Hst E).
Qed.

Lemma sound_parse now output wgStatus :
  parseWireGuardOutput now output = Normal wgStatus -> sound_peers (peers wgStatus).
Proof.
  unfold parseWireGuardOutput.
  destruct (parse_lines now _ _) as [st|e] eqn:E; [|discriminate].
  intros [= <-]. cbn [peers]. apply sound_flush.
  refine (sound_parse_lines now _ _ _ _ E). split.
  - intros key p Hp. cbn [parsed] in Hp. rewrite lookup_empty in Hp. discriminate.
  - intros p Hp. discriminate.
Qed.

Lemma sound_mock now : sound_peers (peers (getMockWireGuardStatus now)).
Proof.
  intros key p. unfold getMockWireGuardStatus. cbn [peers].
  rewrite lookup_insert. case_decide as H1.
  - intros [= <-]. split; [exact H1|].
    repeat split; cbn; try discriminate; intros n [= <-]; cbn; lia.
  - rewrite lookup_insert. case_decide as H2; [|rewrite lookup_empty; discriminate].
    intros [= <-]. split; [exact H2|].
    repeat split; cbn; try discriminate; intros n [= <-]; cbn; lia.
Qed.

Lemma snapshot_sound now wg_show :
  sound_peers (peers (getWireGuardStatus now wg_show)).
Proof.
  unfold getWireGuardStatus. destruct wg_show as [output|e]; [|apply sound_mock].
  destruct (success output); [|apply sound_mock].
  destruct (parseWireGuardOutput now (stdout output)) eqn:E; [|apply sound_mock].
  exact (sound_parse now _ _ E).
Qed.

(** X7.  Whatever the status command does or prints, every entry of
    the snapshot that [getWireGuardStatus] returns sits under its own
    public key, has the status connected or disconnected (never
    never_connected), and has transfer counters that are not below
    zero. *)
Theorem snapshot_entries_sound now wg_show key p :
  peers (getWireGuardStatus now wg_show) !! key = Some p ->
  Live.publicKey p = key /\
  (Live.status p = connected \/ Live.status p = disconnected) /\
  (forall n, Live.transferRx p = Some n -> not_negative n) /\
  (forall n, Live.transferTx p = Some n -> not_negative n).
Proof.
  intros Hp.
  destruct (snapshot_sound now wg_show key p Hp) as (Hk & Hst & Hrx & Htx).
  split; [exact Hk|]. split; [|split; assumption].
  destruct (Live.status p); [left|right|]; congruence.
Qed.

Lemma snapshot_entries_sound_witness :
  let p := sample_peer (Some (1700000000000 - 10000)) in
  Live.publicKey p = "PEERKEY1" /\
  (Live.status p = connected \/ Live.status p = disconnected) /\
  (forall n, Live.transferRx p = Some n -> not_negative n) /\
  (forall n, Live.transferTx p = Some n -> not_negative n).
Proof.
  apply (snapshot_entries_sound 1700000000000
           (Exited (MkOutput true sample_output ""))).
  vm_compute. reflexivity.
Defined.

(** ** How many peers a snapshot holds *)

Lemma size_flush st : (size (flush st) <= held st)%nat.
Proof.
  unfold flush, held. destruct (currentPeer st) as [p|]; [|lia].
  rewrite map_size_insert. destruct (parsed st !! Live.publicKey p); cbn [id]; lia.
Qed.

Lemma held_on_peer f st : held (on_peer f st) = held st.
Proof. unfold held. cbn. destruct (currentPeer st); reflexivity. Qed.

Lemma held_on_interface f st : held (on_interface f st) = held st.
Proof. reflexivity. Qed.

Lemma held_parse_line now st line st' :
  parse_line now st line = Normal st' ->
  (held st' <= held st + if Str.startsWith line "peer:" then 1 else 0)%nat.
Proof.
  unfold parse_line.
  destruct (Str.startsWith line "interface:");
    [intros [= <-]; unfold held; cbn; lia|].
  destruct (Str.startsWith line "public key:").
  { destruct (currentPeer st); intros [= <-];
      rewrite ?held_on_peer, ?held_on_interface; lia. }
  destruct (Str.startsWith line "listening port:");
    [intros [= <-]; rewrite held_on_interface; lia|].
  destruct (Str.startsWith line "peer:").
  { intros [= <-]. pose proof (size_flush st). unfold held at 1. cbn. lia. }
  destruct (Str.startsWith line "endpoint:");
    [intros [= <-]; rewrite held_on_peer; lia|].
  destruct (Str.startsWith line "allowed ips:");
    [intros [= <-]; rewrite held_on_peer; lia|].
  destruct (Str.startsWith line "latest handshake:").
  { destruct (currentPeer st) as [p|] eqn:E; [|intros [= <-]; lia].
    destruct (parseHandshakeTime now _); [|discriminate].
    intros [= <-]. unfold held. cbn. rewrite E. lia. }
  destruct (Str.startsWith line "transfer:"); [|intros [= <-]; lia].
  destruct (currentPeer st) as [p|] eqn:E; [|intros [= <-]; lia].
  destruct (match_first re_transfer line) as [m|]; [|intros [= <-]; lia].
  destruct (group 1 (groups m)); [|intros [= <-]; lia].
  destruct (group 2 (groups m)); [|intros [= <-]; lia].
  intros [= <-]. rewrite held_on_peer. lia.
Qed.

Lemma held_parse_lines now lines : forall st st',
  parse_lines now st lines = Normal st' ->
  (held st' <= held st + peer_lines lines)%nat.
Proof.
  unfold peer_lines.
  induction lines as [|line lines IH]; intros st st'; cbn [parse_lines List.filter].
  - intros [= <-]. cbn. lia.
  - destruct (parse_line now st line) as [st1|e] eqn:E; [|discriminate].
    intros H. change (parse_lines now st1 lines = Normal st') in H.
    apply IH in H. apply held_parse_line in E.
    destruct (Str.startsWith line "peer:"); cbn [length]; lia.
Qed.

(** X8.  A snapshot that [parseWireGuardOutput] returns holds at most
    as many peers as the output has lines that start with [peer:]
    (fewer when a key comes twice). *)
Theorem peers_at_most_peer_lines now output wgStatus :
  parseWireGuardOutput now output = Normal wgStatus ->
  (size (peers wgStatus) <= peer_lines (lines_of output))%nat.
Proof.
  unfold parseWireGuardOutput.
  destruct (parse_lines now _ _) as [st|e] eqn:E; [|discriminate].
  intros [= <-]. cbn [peers]. apply held_parse_lines in E.
  pose proof (size_flush st). unfold held at 2 in E. cbn in E.
  rewrite map_size_empty in E. lia.
Qed.

Lemma peers_at_most_peer_lines_witness :
  let wgStatus :=
    MkStatus (Some quiet_interface)
      {[ "PEERKEY1" := sample_peer (Some (1700000000000 - 10000)) ]} in
  (size (peers wgStatus) <= peer_lines (lines_of sample_output))%nat.
Proof.
  apply (peers_at_most_peer_lines 1700000000000 sample_output).
  vm_compute. reflexivity.
Defined.

Lemma parse_line_no_peer now st line :
  currentPeer st = None ->
  Str.startsWith line "peer:" = false ->
  exists i, parse_line now st line = Normal (MkParse i (parsed st) None).
Proof.
  intros Hc Hp. unfold parse_line. rewrite Hp, Hc.
  destruct st as [i m c]. cbn in Hc. subst c. cbn [parsed interface_info].
  repeat match goal with
         | |- context [if Str.startsWith line ?p then _ else _] =>
             destruct (Str.startsWith line p)
         end;
    eexists; reflexivity.
Qed.

Lemma parse_lines_no_peer now lines : forall st,
  currentPeer st = None ->
  Forall (fun line => Str.startsWith line "peer:" = false) lines ->
  exists i, parse_lines now st lines = Normal (MkParse i (parsed st) None).
Proof.
  induction lines as [|line lines IH]; intros st Hc Hl; cbn [parse_lines].
  - exists (interface_info st). destruct st. cbn in Hc. subst. reflexivity.
  - inversion Hl as [|? ? Hline Hrest]; subst.
    destruct (parse_line_no_peer now st line Hc Hline) as [i ->].
    exact (IH (MkParse i (parsed st) None) eq_refl Hrest).
Qed.

(** X9.  An output with no line that starts with [peer:] parses,
    without an error, to a snapshot with no peer: the lines of a peer
    (endpoint, allowed ips, latest handshake, transfer) are dropped
    when no peer is open, and no handshake text is read. *)
Theorem no_peer_line_no_peers now output :
  Forall (fun line => Str.startsWith line "peer:" = false) (lines_of output) ->
  exists i, parseWireGuardOutput now output = Normal (MkStatus i ∅).
Proof.
  intros Hl. unfold parseWireGuardOutput.
  destruct (parse_lines_no_peer now _ (MkParse None ∅ None) eq_refl Hl) as [i ->].
  exists i. reflexivity.
Qed.

Lemma no_peer_line_no_peers_witness :
  exists i,
    parseWireGuardOutput 1700000000000
      (Str.join nl ["interface: wg0"; "latest handshake: 99999999999 days ago";
                    "transfer: 1.00 MiB received, 500.00 KiB sent"])
    = Normal (MkStatus i ∅).
Proof.
  apply (no_peer_line_no_peers 1700000000000). vm_compute. repeat constructor.
Defined.

(** *** Blank output *)

Lemma drop_spaces_blank l : blank l -> Str.drop_spaces l = [].
Proof.
  induction 1 as [|c l Hc _ IH]; [reflexivity|].
  cbn [Str.drop_spaces]. rewrite Hc. exact IH.
Qed.

Lemma trim_blank s : blank (Str.chars s) -> Str.trim s = "".
Proof. intros H. unfold Str.trim. rewrite (drop_spaces_blank _ H). reflexivity. Qed.

Lemma split_list_blank sep l : forall cur,
  blank cur -> blank l ->
  Forall (fun piece => blank (Str.chars piece)) (Str.split_list sep cur l).
Proof.
  induction l as [|c l IH]; intros cur Hcur Hl; cbn [Str.split_list].
  - constructor; [|constructor]. rewrite chars_unchars. apply Forall_rev. exact Hcur.
  - inversion Hl as [|? ? Hc Hl']; subst.
    destruct (Ascii.eqb c sep).
    + constructor; [|apply IH; [constructor|exact Hl']].
      rewrite chars_unchars. apply Forall_rev. exact Hcur.
    + apply IH; [constructor; assumption|exact Hl'].
Qed.

Lemma lines_of_blank output : blank (Str.chars output) -> lines_of output = [].
Proof.
  intros H. unfold lines_of, Str.split.
  pose proof (split_list_blank "010"%char (Str.chars output) [] (Forall_nil_2 _) H) as Hp.
  induction Hp as [|piece pieces Hpiece _ IH]; [reflexivity|].
  cbn [map]. rewrite (trim_blank _ Hpiece).
  rewrite filter_cons_False by (cbn; discriminate). exact IH.
Qed.

(** X10.  An output of white space only, the empty output included,
    parses to the snapshot with no interface and no peer (which the
    reconciler reads as a stopped server and absent peers). *)
Theorem blank_output_empty_snapshot now output :
  blank (Str.chars output) ->
  parseWireGuardOutput now output = Normal (MkStatus None ∅).
Proof.
  intros H. unfold parseWireGuardOutput. rewrite (lines_of_blank _ H). reflexivity.
Qed.

Lemma blank_output_empty_snapshot_witness :
  parseWireGuardOutput 1700000000000 (Str.join nl [" "; ""; "  "])
  = Normal (MkStatus None ∅).
Proof.
  apply (blank_output_empty_snapshot 1700000000000). vm_compute. repeat constructor.
Defined.

(** ** The values of the lines *)

Lemma unchars_app a b : Str.unchars (a ++ b) = Str.unchars a ++ Str.unchars b.
Proof.
  unfold Str.unchars. induction a as [|c a IH]; [reflexivity|].
  change (String c (string_of_list_ascii (a ++ b))
          = String c (string_of_list_ascii a ++ string_of_list_ascii b)).
  f_equal. exact IH.
Qed.

Lemma split_list_cons sep cur l :
  exists piece pieces, Str.split_list sep cur l = piece :: pieces.
Proof.
  revert cur. induction l as [|c l IH]; intros cur; cbn [Str.split_list].
  - eexists _, _. reflexivity.
  - destruct (Ascii.eqb c sep); [eexists _, _; reflexivity|apply IH].
Qed.

(** Joining the pieces of a split with the separator gives the text
    back. *)
Lemma join_split_list sep l : forall cur,
  Str.join (String sep "") (Str.split_list sep cur l)
  = Str.unchars (rev cur ++ l).
Proof.
  induction l as [|c l IH]; intros cur; cbn [Str.split_list].
  - rewrite app_nil_r. reflexivity.
  - destruct (Ascii.eqb_spec c sep) as [->|Hne].
    + destruct (split_list_cons sep [] l) as (piece & pieces & E).
      specialize (IH []). rewrite E in IH |- *.
      change (Str.unchars (rev cur) ++ String sep "" ++
              Str.join (String sep "") (piece :: pieces)
              = Str.unchars (rev cur ++ sep :: l)).
      rewrite IH. cbn [rev app]. rewrite unchars_app. reflexivity.
    + rewrite IH. cbn [rev]. rewrite <- app_assoc. reflexivity.
Qed.

Lemma join_split s sep : Str.join (String sep "") (Str.split s sep) = s.
Proof. unfold Str.split. rewrite join_split_list. apply unchars_chars. Qed.

Lemma split_list_label label : forall cur rest,
  Forall (fun c => c <> ":"%char) label ->
  Str.split_list ":" cur (label ++ ":"%char :: rest)
  = Str.unchars (rev cur ++ label) :: Str.split_list ":" [] rest.
Proof.
  induction label as [|c label IH]; intros cur rest Hl; cbn [app Str.split_list].
  - rewrite app_nil_r. reflexivity.
  - inversion Hl as [|? ? Hc Hl']; subst.
    destruct (Ascii.eqb_spec c ":") as [->|_]; [congruence|].
    rewrite IH by exact Hl'. cbn [rev]. rewrite <- app_assoc. reflexivity.
Qed.

Lemma split_label label value :
  no_colon label ->
  Str.split (label ++ ":" ++ value) ":" = label :: Str.split value ":".
Proof.
  intros Hl. unfold Str.split. rewrite chars_app.
  change (Str.chars (":" ++ value)) with (":"%char :: Str.chars value).
  rewrite split_list_label by exact Hl. cbn [rev app].
  rewrite unchars_chars. reflexivity.
Qed.

(** What follows the first colon of a line, colons included. *)
Lemma after_first_colon_label label value :
  no_colon label ->
  after_first_colon (label ++ ":" ++ value) = Str.trim value.
Proof.
  intros Hl. unfold after_first_colon. rewrite split_label by exact Hl.
  cbn [tl]. rewrite join_split. reflexivity.
Qed.

(** What [split(':')[1]] keeps of a value: the part before its first
    colon. *)
Lemma after_colon_label label value rest :
  no_colon label -> no_colon value ->
  after_colon (label ++ ":" ++ value ++ ":" ++ rest) = Str.trim value.
Proof.
  intros Hl Hv. unfold after_colon. rewrite split_label by exact Hl.
  rewrite split_label by exact Hv. reflexivity.
Qed.

Lemma after_colon_plain label value :
  no_colon label -> no_colon value ->
  after_colon (label ++ ":" ++ value) = Str.trim value.
Proof.
  intros Hl Hv. unfold after_colon. rewrite split_label by exact Hl.
  cbn [nth]. destruct (split_list_cons ":" [] (Str.chars value)) as (p & ps & E).
  pose proof (join_split value ":") as Hj. unfold Str.split in *. rewrite E in *.
  cbn [nth].
  assert (ps = []) as ->.
  { destruct ps as [|q ps]; [reflexivity|]. exfalso.
    cbn [Str.join] in Hj. 
    assert (Hin : ":"%char ∈ Str.chars value).
    { rewrite <- Hj. destruct ps; rewrite !chars_app; set_solver. }
    unfold no_colon in Hv. rewrite Forall_forall in Hv.
    exact (Hv _ Hin eq_refl). }
  cbn [Str.join] in Hj. congruence.
Qed.

Ltac eval_labels :=
  repeat match goal with
         | |- context [Str.startsWith ?a ?b] =>
             let v := eval vm_compute in (Str.startsWith a b) in
             change (Str.startsWith a b) with v
         end.

(** X11.  An [endpoint:] line gives the open peer everything after the
    first colon, trimmed, colons included: the port of an address, and
    an IPv6 address, are kept whole. *)
Theorem endpoint_keeps_colons now st value :
  parse_line now st ("endpoint:" ++ value)
  = Normal (on_peer (Live.set_endpoint (Str.trim value)) st).
Proof.
  unfold parse_line. eval_labels. cbv iota.
  change ("endpoint:" ++ value) with ("endpoint" ++ ":" ++ value).
  rewrite (after_first_colon_label "endpoint" value)
    by (repeat constructor; discriminate).
  reflexivity.
Qed.

(** X12.  An [allowed ips:] line gives the open peer the value up to
    its first colon, trimmed: a value without a colon is kept whole, and
    a value with one, an IPv6 range, is cut there. *)
Theorem allowed_ips_cut_at_colon now st value :
  no_colon value ->
  parse_line now st ("allowed ips:" ++ value)
  = Normal (on_peer (Live.set_allowedIps (Str.trim value)) st) /\
  forall rest,
    parse_line now st ("allowed ips:" ++ value ++ ":" ++ rest)
    = Normal (on_peer (Live.set_allowedIps (Str.trim value)) st).
Proof.
  intros Hv. split; [|intros rest]; unfold parse_line; eval_labels; cbv iota.
  - change ("allowed ips:" ++ value) with ("allowed ips" ++ ":" ++ value).
    rewrite (after_colon_plain "allowed ips" value)
      by (exact Hv || (repeat constructor; discriminate)).
    reflexivity.
  - change ("allowed ips:" ++ value ++ ":" ++ rest)
      with ("allowed ips" ++ ":" ++ value ++ ":" ++ rest).
    rewrite (after_colon_label "allowed ips" value rest)
      by (exact Hv || (repeat constructor; discriminate)).
    reflexivity.
Qed.

Lemma allowed_ips_cut_at_colon_witness :
  let st := MkParse None ∅ (Some (sample_peer None)) in
  parse_line 1700000000000 st "allowed ips: fd00"
  = Normal (on_peer (Live.set_allowedIps "fd00") st) /\
  forall rest,
    parse_line 1700000000000 st ("allowed ips: fd00" ++ ":" ++ rest)
    = Normal (on_peer (Live.set_allowedIps "fd00") st).
Proof.
  apply (allowed_ips_cut_at_colon 1700000000000 _ " fd00").
  repeat constructor; discriminate.
Defined.

(** ** What the reconciler leaves alone *)

Lemma identity_apply p r :
  Peers.set_config_file_path p = None -> identity (Peers.apply p r) = identity r.
Proof. intros H. unfold identity, Peers.apply. cbn. rewrite H. reflexivity. Qed.

Lemma identity_update_where_id i p rows :
  Peers.set_config_file_path p = None ->
  map identity (Peers.update_where_id i p rows) = map identity rows.
Proof.
  intros H. unfold Peers.update_where_id. rewrite map_map. apply map_ext.
  intros r. destruct (decide _); [apply identity_apply, H|reflexivity].
Qed.

Lemma identity_sync_peers env wgStatus dbPeers : forall rows n,
  map identity (sync_peers env wgStatus dbPeers rows n).1 = map identity rows.
Proof.
  induction dbPeers as [|d l IH]; intros rows n; cbn [sync_peers]; [reflexivity|].
  destruct (peer_update env (ref_id d)); rewrite IH; [|reflexivity|reflexivity].
  apply identity_update_where_id. reflexivity.
Qed.

(** X13.  A run of the reconciler, however it ends, keeps the number
    and order of the peer rows and, in every row, the id, the owner, the
    name, both keys, the allowed ips, the keepalive, the path of the
    configuration file and [created_at]: it adds no row, removes none
    and renames none. *)
Theorem sync_keeps_identity env db :
  map identity (wireguard_peers (syncWireGuardStatus env db).1)
  = map identity (wireguard_peers db).
Proof.
  unfold syncWireGuardStatus.
  destruct (sync_server _ _ _) as [servers|e]; [|reflexivity].
  destruct (peers_select env); [reflexivity|].
  pose proof (identity_sync_peers env (getWireGuardStatus (now env) (wg_show env))
                (select_refs (wireguard_peers db)) (wireguard_peers db) 0) as H.
  destruct (sync_peers _ _ _ _ _) as [rows n]. exact H.
Qed.

(** ** Errors of the reconciler *)

(** X14.  A run of the reconciler that answers with an error has
    changed no peer row: the update of the server row or the select of
    the peers failed before the first peer was written. *)
Theorem sync_error_keeps_peers env db failure :
  (syncWireGuardStatus env db).2 = ServerError failure ->
  wireguard_peers (syncWireGuardStatus env db).1 = wireguard_peers db.
Proof.
  unfold syncWireGuardStatus.
  destruct (sync_server _ _ _) as [servers|e]; [|reflexivity].
  destruct (peers_select env); [reflexivity|].
  destruct (sync_peers _ _ _ _ _). discriminate.
Qed.

Lemma sync_error_keeps_peers_witness :
  wireguard_peers (syncWireGuardStatus unreadable_env (MkDb three_peers [server_row])).1
  = three_peers.
Proof.
  apply (sync_error_keeps_peers unreadable_env (MkDb three_peers [server_row])
           (FailedToFetchPeers "connection refused")).
  vm_compute. reflexivity.
Defined.

Lemma filter_length_le {A} (f : A -> bool) l :
  (length (List.filter f l) <= length l)%nat.
Proof. induction l as [|a l IH]; cbn; [lia|]. destruct (f a); cbn; lia. Qed.

Lemma filter_all {A} (f : A -> bool) l :
  (forall a, In a l -> f a = true) -> List.filter f l = l.
Proof.
  induction l as [|a l IH]; intros H; cbn; [reflexivity|].
  rewrite H by (left; reflexivity). f_equal. apply IH. intros b Hb. apply H. right. exact Hb.
Qed.

(** X15.  In a successful answer of the reconciler [peersUpdated] lies
    between 0 and the number of peer rows, and it is that number
    whenever no update of a row throws (an update that the store
    refuses without throwing is counted too). *)
Theorem peersUpdated_bounds env db body :
  (syncWireGuardStatus env db).2 = Ok body ->
  0 <= peersUpdated body <= Z.of_nat (length (wireguard_peers db)) /\
  ((forall r e, r ∈ wireguard_peers db -> peer_update env (Peers.id r) <> Threw e) ->
   peersUpdated body = Z.of_nat (length (wireguard_peers db))).
Proof.
  unfold syncWireGuardStatus.
  destruct (sync_server _ _ _) as [servers|e]; [|discriminate].
  destruct (peers_select env); [discriminate|].
  pose proof (sync_peers_count env (getWireGuardStatus (now env) (wg_show env))
                (select_refs (wireguard_peers db)) (wireguard_peers db) 0) as Hcount.
  destruct (sync_peers _ _ _ _ _) as [rows n]. cbn in Hcount |- *.
  intros [= <-]. cbn [peersUpdated]. subst n.
  pose proof (filter_length_le (counted env) (select_refs (wireguard_peers db))) as Hle.
  unfold select_refs in *. rewrite length_map in Hle. split; [lia|].
  intros Hok. rewrite filter_all; [rewrite length_map; lia|].
  intros d Hd. apply in_map_iff in Hd as (r & <- & Hr). unfold counted. cbn [ref_id].
  apply list_elem_of_In in Hr.
  destruct (peer_update env (Peers.id r)) eqn:E; try reflexivity.
  exfalso. exact (Hok r e Hr E).
Qed.

Lemma peersUpdated_bounds_witness :
  let body := MkSync true (Some quiet_interface) 3 in
  0 <= peersUpdated body <= Z.of_nat (length three_peers) /\
  peersUpdated body = Z.of_nat (length three_peers).
Proof.
  intros body.
  assert (Hok : (syncWireGuardStatus (quiet_env 1700000000000 second_rejected)
                   (MkDb three_peers [server_row])).2 = Ok body)
    by (vm_compute; reflexivity).
  destruct (peersUpdated_bounds _ _ _ Hok) as [Hbounds Hall].
  split; [exact Hbounds|]. apply Hall. intros r e _. unfold quiet_env, second_rejected.
  cbn [peer_update]. destruct (decide _); discriminate.
Defined.

(** ** Peers that the snapshot holds *)

(** The row of a peer that the snapshot holds, after a successful run
    whose update of that row was applied. *)
Lemma sync_present_row env db body r p :
  NoDup (map Peers.id (wireguard_peers db)) ->
  (syncWireGuardStatus env db).2 = Ok body ->
  r ∈ wireguard_peers db ->
  peers (getWireGuardStatus (now env) (wg_show env)) !! Peers.public_key r = Some p ->
  peer_update env (Peers.id r) = Applied ->
  Peers.apply (updateData (now env) (Live.Entry p)) r
    ∈ wireguard_peers (syncWireGuardStatus env db).1.
Proof.
  intros Hnd Hok Hin Hp Happlied.
  pose proof (sync_applied_row env db body r Hnd Hok Hin Happlied) as [H _].
  rewrite (get_entry _ _ _ _ Hp) in H. exact H.
Qed.

(** X16.  After a successful run of the reconciler, the row of a peer
    that the snapshot holds, when the store applied its update, has the
    status of the snapshot entry, its handshake time (null when it has
    none), its transfer counters (0 when a counter is missing or not a
    number) and its endpoint (null when missing or empty), and is
    otherwise the row it was. *)
Theorem sync_copies_present_peer env db body r p :
  NoDup (map Peers.id (wireguard_peers db)) ->
  (syncWireGuardStatus env db).2 = Ok body ->
  r ∈ wireguard_peers db ->
  peers (getWireGuardStatus (now env) (wg_show env)) !! Peers.public_key r = Some p ->
  peer_update env (Peers.id r) = Applied ->
  exists r',
    r' ∈ wireguard_peers (syncWireGuardStatus env db).1 /\
    identity r' = identity r /\
    Peers.status r' = Live.status p /\
    (forall t, Live.lastHandshake p = Some (Some t) -> Peers.last_handshake r' = Some t) /\
    (Live.lastHandshake p = None \/ Live.lastHandshake p = Some None ->
     Peers.last_handshake r' = None) /\
    (forall n, n <> 0 -> Live.transferRx p = Some (Num.Int n) ->
               Peers.transfer_rx r' = Some n) /\
    (Live.transferRx p = None \/ Live.transferRx p = Some Num.NaN ->
     Peers.transfer_rx r' = Some 0) /\
    (forall n, n <> 0 -> Live.transferTx p = Some (Num.Int n) ->
               Peers.transfer_tx r' = Some n) /\
    (Live.transferTx p = None \/ Live.transferTx p = Some Num.NaN ->
     Peers.transfer_tx r' = Some 0) /\
    (forall e, e <> "" -> Live.endpoint p = Some e -> Peers.endpoint r' = Some e) /\
    (Live.endpoint p = None \/ Live.endpoint p = Some "" -> Peers.endpoint r' = None).
Proof.
  intros Hnd Hok Hin Hp Happlied.
  exists (Peers.apply (updateData (now env) (Live.Entry p)) r).
  split; [exact (sync_present_row env db body r p Hnd Hok Hin Hp Happlied)|].
  split; [apply identity_apply; reflexivity|].
  cbn. split; [reflexivity|].
  repeat split.
  - intros t ->. reflexivity.
  - intros [-> | ->]; reflexivity.
  - intros n Hn ->. destruct n; [congruence|reflexivity|reflexivity].
  - intros [-> | ->]; reflexivity.
  - intros n Hn ->. destruct n; [congruence|reflexivity|reflexivity].
  - intros [-> | ->]; reflexivity.
  - intros e He ->. destruct e; [congruence|reflexivity].
  - intros [-> | ->]; reflexivity.
Qed.

Lemma sync_copies_present_peer_witness :
  let env := sample_env 1700000000000 in
  let r := peer_row "1" "PEERKEY1" in
  let p := sample_peer (Some (1700000000000 - 10000)) in
  exists r',
    r' ∈ wireguard_peers (syncWireGuardStatus env sample_db).1 /\
    identity r' = identity r /\
    Peers.status r' = Live.status p /\
    (forall t, Live.lastHandshake p = Some (Some t) -> Peers.last_handshake r' = Some t) /\
    (Live.lastHandshake p = None \/ Live.lastHandshake p = Some None ->
     Peers.last_handshake r' = None) /\
    (forall n, n <> 0 -> Live.transferRx p = Some (Num.Int n) ->
               Peers.transfer_rx r' = Some n) /\
    (Live.transferRx p = None \/ Live.transferRx p = Some Num.NaN ->
     Peers.transfer_rx r' = Some 0) /\
    (forall n, n <> 0 -> Live.transferTx p = Some (Num.Int n) ->
               Peers.transfer_tx r' = Some n) /\
    (Live.transferTx p = None \/ Live.transferTx p = Some Num.NaN ->
     Peers.transfer_tx r' = Some 0) /\
    (forall e, e <> "" -> Live.endpoint p = Some e -> Peers.endpoint r' = Some e) /\
    (Live.endpoint p = None \/ Live.endpoint p = Some "" -> Peers.endpoint r' = None).
Proof.
  intros env r p.
  apply (sync_copies_present_peer env sample_db
           (MkSync true (Some quiet_interface) 2) r p).
  - apply (bool_decide_unpack _). vm_compute. exact I.
  - vm_compute. reflexivity.
  - apply list_elem_of_here.
  - vm_compute. reflexivity.
  - reflexivity.
Defined.

(** X17.  After a successful run of the reconciler, every row whose
    update the store applied has transfer counters that are not below
    zero, and a status other than never_connected, unless [peers[key]]
    reads as a truthy value that is no entry (the key names an
    inherited function): the row then keeps the status it had. *)
Theorem sync_writes_sound_values env db body r :
  NoDup (map Peers.id (wireguard_peers db)) ->
  (syncWireGuardStatus env db).2 = Ok body ->
  r ∈ wireguard_peers db ->
  peer_update env (Peers.id r) = Applied ->
  exists r',
    r' ∈ wireguard_peers (syncWireGuardStatus env db).1 /\
    Peers.id r' = Peers.id r /\
    (Peers.status r' <> never_connected \/
     Live.get (proto_accessor env)
       (peers (getWireGuardStatus (now env) (wg_show env))) (Peers.public_key r)
     = Live.Truthy /\
     Peers.status r' = Peers.status r) /\
    (forall n, Peers.transfer_rx r' = Some n -> 0 <= n) /\
    (forall n, Peers.transfer_tx r' = Some n -> 0 <= n).
Proof.
  intros Hnd Hok Hin Happlied.
  pose proof (sync_applied_row env db body r Hnd Hok Hin Happlied) as [Hrow _].
  cbv zeta in Hrow.
  destruct (peers (getWireGuardStatus (now env) (wg_show env)) !! Peers.public_key r)
    as [p|] eqn:Hp.
  - rewrite (get_entry (proto_accessor env) _ _ _ Hp) in Hrow |- *.
    eexists. split; [exact Hrow|]. split; [reflexivity|].
    destruct (snapshot_sound _ _ _ _ Hp) as (_ & Hst & Hrx & Htx).
    cbn. split; [left; exact Hst|].
    split; intros n.
    + destruct (Live.transferRx p) as [[z| |neg]|] eqn:E; cbn;
        try discriminate; try (intros [= <-]; lia).
      specialize (Hrx _ eq_refl). cbn in Hrx.
      destruct z; cbn; intros [= <-]; lia.
    + destruct (Live.transferTx p) as [[z| |neg]|] eqn:E; cbn;
        try discriminate; try (intros [= <-]; lia).
      specialize (Htx _ eq_refl). cbn in Htx.
      destruct z; cbn; intros [= <-]; lia.
  - destruct (get_no_entry (proto_accessor env) _ _ Hp) as [Hget|Hget];
      rewrite Hget in Hrow |- *;
      (eexists; split; [exact Hrow|]; split; [reflexivity|]); cbn.
    + split; [right; split; reflexivity|]. split; intros n [= <-]; lia.
    + split; [left; discriminate|]. split; intros n [= <-]; lia.
Qed.

Lemma sync_writes_sound_values_witness :
  let env := sample_env 1700000000000 in
  let r := peer_row "2" "KEY2" in
  exists r',
    r' ∈ wireguard_peers (syncWireGuardStatus env sample_db).1 /\
    Peers.id r' = Peers.id r /\
    (Peers.status r' <> never_connected \/
     Live.get (proto_accessor env)
       (peers (getWireGuardStatus (now env) (wg_show env))) (Peers.public_key r)
     = Live.Truthy /\
     Peers.status r' = Peers.status r) /\
    (forall n, Peers.transfer_rx r' = Some n -> 0 <= n) /\
    (forall n, Peers.transfer_tx r' = Some n -> 0 <= n).
Proof.
  intros env r.
  apply (sync_writes_sound_values env sample_db (MkSync true (Some quiet_interface) 2) r).
  - apply (bool_decide_unpack _). vm_compute. exact I.
  - vm_compute. reflexivity.
  - apply list_elem_of_further, list_elem_of_here.
  - reflexivity.
Defined.

(** ** The server row *)

Lemma sync_server_rows env db :
  (exists e, server_update env = Threw e /\ wireguard_server db <> []) \/
  exists servers,
    sync_server env (getWireGuardStatus (now env) (wg_show env)) (wireguard_server db)
    = Normal servers /\
    wireguard_server (syncWireGuardStatus env db).1 = servers.
Proof.
  unfold syncWireGuardStatus.
  destruct (sync_server _ _ _) as [servers|e] eqn:E.
  - right. exists servers. split; [reflexivity|].
    destruct (peers_select env); [reflexivity|].
    destruct (sync_peers _ _ _ _ _). reflexivity.
  - left. revert E. unfold sync_server.
    destruct (head (wireguard_server db)) eqn:Hh; [|discriminate].
    destruct (server_update env); try discriminate.
    intros [= <-]. eexists. split; [reflexivity|].
    destruct (wireguard_server db); [discriminate|discriminate].
Qed.

(** X18.  When the table of the server has one row and the store
    applies its update, a run of the reconciler sets the status of that
    row to running when the snapshot has an interface and to stopped
    when it has none, copies the public key and the listen port that the
    interface has, sets [updated_at] to the clock and keeps the other
    columns.  A listen port that is not a number reaches the store as
    null, and one beyond 32 bits does not fit the column: the store
    refuses both, and the row stays as it was. *)
Theorem sync_updates_single_server_row env rows row :
  server_update env = Applied ->
  let wgStatus := getWireGuardStatus (now env) (wg_show env) in
  let after := wireguard_server (syncWireGuardStatus env (MkDb rows [row])).1 in
  let updated status public_key listen_port :=
    Server.Make (Server.id row) (Server.interface_name row) listen_port
      (Server.private_key row) public_key (Server.network_subnet row)
      (Server.dns_servers row) (Server.endpoint row) status
      (Server.created_at row) (now env) in
  match interface wgStatus with
  | None => after = [updated stopped (Server.public_key row) (Server.listen_port row)]
  | Some i =>
      let key := default (Server.public_key row) (Iface.publicKey i) in
      match Iface.listenPort i with
      | None => after = [updated running key (Server.listen_port row)]
      | Some (Num.Int port) =>
          if (- 2 ^ 31 <=? port) && (port <? 2 ^ 31)
          then after = [updated running key port]
          else after = [row]
      | Some Num.NaN | Some (Num.Infinity _) => after = [row]
      end
  end.
Proof.
  intros Happlied wgStatus after updated. subst after.
  destruct (sync_server_rows env (MkDb rows [row]))
    as [(e & He & _)|(servers & Hs & ->)]; [congruence|].
  revert Hs. fold wgStatus. unfold sync_server. cbn [wireguard_server head].
  rewrite Happlied. unfold Server.update_where_id. cbn [mapM].
  rewrite decide_True by reflexivity.
  unfold serverData, Server.apply. cbn [Server.set_listen_port Server.set_status
    Server.set_public_key Server.set_updated_at].
  destruct (interface wgStatus) as [i|]; cbn.
  - destruct (Iface.listenPort i) as [[port| |neg]|]; cbn;
      try (intros [= <-]; reflexivity).
    unfold Server.is_integer.
    destruct ((- 2 ^ 31 <=? port) && (port <? 2 ^ 31)); cbn; intros [= <-]; reflexivity.
  - intros [= <-]. reflexivity.
Qed.

Lemma sync_updates_single_server_row_witness :
  wireguard_server
    (syncWireGuardStatus (quiet_env 1700000000000 all_applied)
       (MkDb three_peers [server_row])).1
  = [Server.Make "server-1" "wg0" 51820 "SERVERPRIVATE" "SERVERKEY" "10.7.0.1/24"
       (Some ["1.1.1.1"; "8.8.8.8"]) (Some "vpn.example.com:51820") running
       1690000000000 1700000000000].
Proof.
  pose proof (sync_updates_single_server_row (quiet_env 1700000000000 all_applied)
                three_peers server_row eq_refl) as H.
  vm_compute in H |- *. exact H.
Defined.

(** ** The status of one peer *)

Lemma filter_none {A} (f : A -> bool) l :
  (forall a, a ∈ l -> f a = false) -> List.filter f l = [].
Proof.
  induction l as [|a l IH]; intros H; cbn; [reflexivity|].
  rewrite H by apply list_elem_of_here. apply IH. intros b Hb. apply H.
  apply list_elem_of_further, Hb.
Qed.

(** X19.  [getPeerStatus] answers "Peer not found" and leaves the
    store as it was when no row has both the id asked for and the
    caller as its owner: a caller learns nothing of, and refreshes
    nothing in, the peer of another user. *)
Theorem getPeerStatus_not_owned env userId peerId db :
  (forall r, r ∈ wireguard_peers db ->
             ~ (Peers.id r = peerId /\ Peers.user_id r = userId)) ->
  getPeerStatus env userId peerId db = (db, ServerError PeerNotFound).
Proof.
  intros H. unfold getPeerStatus. rewrite filter_none; [reflexivity|].
  intros r Hr. apply bool_decide_eq_false_2, H, Hr.
Qed.

Lemma getPeerStatus_not_owned_witness :
  getPeerStatus (sample_env 1700000000000) "user-2" "1" sample_db
  = (sample_db, ServerError PeerNotFound).
Proof.
  apply (getPeerStatus_not_owned (sample_env 1700000000000) "user-2" "1" sample_db).
  intros r Hr [_ Huser]. unfold sample_db in Hr. cbn [wireguard_peers] in Hr.
  repeat (apply elem_of_cons in Hr as [->|Hr]; [discriminate Huser|]).
  inversion Hr.
Defined.

Lemma identity_update_where_id_user i u p rows :
  Peers.set_config_file_path p = None ->
  map identity (Peers.update_where_id_user i u p rows) = map identity rows.
Proof.
  intros H. unfold Peers.update_where_id_user. rewrite map_map. apply map_ext.
  intros r. destruct (decide _); [apply identity_apply, H|reflexivity].
Qed.

Lemma other_rows_update_where_id_user i u p rows x :
  x ∈ rows -> Peers.id x <> i -> x ∈ Peers.update_where_id_user i u p rows.
Proof.
  intros Hx Hne. unfold Peers.update_where_id_user.
  apply list_elem_of_fmap. exists x. split; [|exact Hx].
  rewrite decide_False by (intros [? _]; congruence). reflexivity.
Qed.

(** X20.  However it ends, [getPeerStatus] leaves the server table as
    it was, keeps every row whose id is not the one asked for exactly as
    it was, and in all rows keeps the columns that say who the peer is
    (id, owner, name, keys, allowed ips, keepalive, file path,
    [created_at]). *)
Theorem getPeerStatus_touches_one_row env userId peerId db :
  let after := (getPeerStatus env userId peerId db).1 in
  wireguard_server after = wireguard_server db /\
  map identity (wireguard_peers after) = map identity (wireguard_peers db) /\
  forall x, x ∈ wireguard_peers db -> Peers.id x <> peerId ->
            x ∈ wireguard_peers after.
Proof.
  unfold getPeerStatus.
  destruct (single (List.filter _ (wireguard_peers db))) as [peerData|];
    [|cbn; auto].
  set (data := if Live.truthy _ then presentData _ else absentData).
  assert (Hdata : Peers.set_config_file_path data = None)
    by (unfold data; destruct (Live.truthy _); reflexivity).
  destruct (peer_update env peerId); [|cbn; auto|cbn; auto].
  destruct (single (List.filter _ (Peers.update_where_id_user _ _ _ _))); cbn;
    (split; [reflexivity|]);
    (split; [apply identity_update_where_id_user, Hdata|]);
    intros x Hx Hne; apply other_rows_update_where_id_user; assumption.
Qed.

(** X21.  For a peer that the snapshot holds with an endpoint, a
    handshake time and both counters not zero, [getPeerStatus] asked by
    the owner and a successful run of the reconciler, from the same
    store and the same snapshot, write the same row, but for
    [updated_at], which [getPeerStatus] does not set. *)
Theorem getPeerStatus_agrees_with_sync env db body r p e t rx tx :
  NoDup (map Peers.id (wireguard_peers db)) ->
  r ∈ wireguard_peers db ->
  peers (getWireGuardStatus (now env) (wg_show env)) !! Peers.public_key r = Some p ->
  peer_update env (Peers.id r) = Applied ->
  (syncWireGuardStatus env db).2 = Ok body ->
  Live.endpoint p = Some e -> e <> "" ->
  Live.lastHandshake p = Some (Some t) ->
  Live.transferRx p = Some (Num.Int rx) -> rx <> 0 ->
  Live.transferTx p = Some (Num.Int tx) -> tx <> 0 ->
  exists asked synced,
    (getPeerStatus env (Peers.user_id r) (Peers.id r) db).2 = Ok asked /\
    synced ∈ wireguard_peers (syncWireGuardStatus env db).1 /\
    Peers.without_updated_at asked = Peers.without_updated_at synced.
Proof.
  intros Hnd Hin Hp Happlied Hok He Hne Ht Hrx Hrxne Htx Htxne.
  exists (Peers.apply (presentData (Live.Entry p)) r),
         (Peers.apply (updateData (now env) (Live.Entry p)) r).
  split; [|split].
  - unfold getPeerStatus. rewrite (filter_owned _ r Hnd Hin). cbn [single].
    rewrite (get_entry _ _ _ _ Hp), Happlied. cbn [Live.truthy].
    rewrite filter_owned_updated, (filter_owned _ r Hnd Hin).
    reflexivity.
  - exact (sync_present_row env db body r p Hnd Hok Hin Hp Happlied).
  - unfold Peers.without_updated_at, Peers.apply, presentData, updateData. cbn.
    rewrite He, Ht, Hrx, Htx. cbn.
    destruct e; [congruence|]. destruct rx; [congruence| |]; destruct tx;
      try congruence; reflexivity.
Qed.

Lemma getPeerStatus_agrees_with_sync_witness :
  let env := sample_env 1700000000000 in
  let r := peer_row "1" "PEERKEY1" in
  exists asked synced,
    (getPeerStatus env (Peers.user_id r) (Peers.id r) sample_db).2 = Ok asked /\
    synced ∈ wireguard_peers (syncWireGuardStatus env sample_db).1 /\
    Peers.without_updated_at asked = Peers.without_updated_at synced.
Proof.
  intros env r.
  apply (getPeerStatus_agrees_with_sync env sample_db
           (MkSync true (Some quiet_interface) 2) r
           (sample_peer (Some (1700000000000 - 10000)))
           "1.2.3.4:51820" (1700000000000 - 10000) 1048576 512000).
  - apply (bool_decide_unpack _). vm_compute. exact I.
  - apply list_elem_of_here.
  - vm_compute. reflexivity.
  - reflexivity.
  - vm_compute. reflexivity.
  - reflexivity.
  - discriminate.
  - reflexivity.
  - reflexivity.
  - discriminate.
  - reflexivity.
  - discriminate.
Defined.

(** ** The peer lifecycle *)

(** X22.  [deletePeer] of an id that no row has answers "Peer not
    found", leaves the store as it was, runs no command and removes no
    file. *)
Theorem deletePeer_unknown_id denv userId id db :
  id ∉ map Peers.id (wireguard_peers db) ->
  deletePeer denv userId id db = (db, DeletePeerNotFound, []).
Proof.
  intros Hid. unfold deletePeer. rewrite filter_none; [reflexivity|].
  intros r Hr. apply bool_decide_eq_false_2. intros <-.
  apply Hid, list_elem_of_fmap_2, Hr.
Qed.

Lemma deletePeer_unknown_id_witness :
  deletePeer rough_delete_env "user-1" "9" (MkDb three_peers [server_row])
  = (MkDb three_peers [server_row], DeletePeerNotFound, []).
Proof.
  apply (deletePeer_unknown_id rough_delete_env "user-1" "9"
           (MkDb three_peers [server_row])).
  apply (bool_decide_unpack _). vm_compute. exact I.
Defined.

Lemma filter_has_id rows r :
  NoDup (map Peers.id rows) -> r ∈ rows ->
  List.filter (has_id (Peers.id r)) rows = [r].
Proof.
  induction rows as [|x l IH]; intros Hnd Hin; [inversion Hin|].
  cbn [map] in Hnd. apply NoDup_cons in Hnd as [Hx Hnd]. cbn [List.filter].
  apply elem_of_cons in Hin as [->|Hin].
  - unfold has_id at 1. rewrite bool_decide_eq_true_2 by reflexivity.
    rewrite filter_none; [reflexivity|].
    intros y Hy. apply bool_decide_eq_false_2. intros Heq.
    apply Hx. rewrite <- Heq. apply list_elem_of_fmap_2, Hy.
  - unfold has_id at 1. rewrite bool_decide_eq_false_2.
    + apply IH; assumption.
    + intros Heq. apply Hx. rewrite Heq. apply list_elem_of_fmap_2, Hin.
Qed.

Lemma elem_of_filter_bool {A} (f : A -> bool) l x :
  x ∈ List.filter f l <-> x ∈ l /\ f x = true.
Proof. rewrite !list_elem_of_In. rewrite filter_In. reflexivity. Qed.

(** X23.  When the ids are distinct and the store applies the delete,
    [deletePeer] of the id of a row answers with success for any
    caller, the owner or not, whether or not the command and the
    removal of the file succeed; it removes that row and no other, keeps
    the server table, runs [sudo wg set wg0 peer <public key> remove]
    and removes the configuration file when the row has a path that is
    not empty. *)
Theorem deletePeer_removes_row denv userId db r :
  NoDup (map Peers.id (wireguard_peers db)) ->
  r ∈ wireguard_peers db ->
  row_delete denv = Applied ->
  exists after effects,
    deletePeer denv userId (Peers.id r) db = (after, Deleted, effects) /\
    wireguard_server after = wireguard_server db /\
    (forall x, x ∈ wireguard_peers after <-> x ∈ wireguard_peers db /\ x <> r) /\
    effects =
      (Run "sudo" ["wg"; "set"; "wg0"; "peer"; Peers.public_key r; "remove"]
       :: match Peers.config_file_path r with
          | Some path => if Str.is_empty path then [] else [RemoveFile path]
          | None => []
          end)%list.
Proof.
  intros Hnd Hin Hdel. unfold deletePeer.
  rewrite (filter_has_id _ r Hnd Hin). cbn [single]. rewrite Hdel.
  eexists _, _. split; [reflexivity|]. cbn [wireguard_server wireguard_peers].
  split; [reflexivity|]. split.
  - intros x. rewrite elem_of_filter_bool. unfold has_id.
    split; intros [Hx Hne]; (split; [exact Hx|]).
    + intros ->. rewrite bool_decide_eq_true_2 in Hne by reflexivity. discriminate.
    + apply negb_true_iff, bool_decide_eq_false_2. intros Heq. apply Hne.
      clear - Hnd Hin Hx Heq.
      induction (wireguard_peers db) as [|y l IH]; [inversion Hin|].
      cbn [map] in Hnd. apply NoDup_cons in Hnd as [Hy Hnd].
      apply elem_of_cons in Hin as [->|Hin], Hx as [->|Hx]; try reflexivity.
      * exfalso. apply Hy. rewrite <- Heq. apply list_elem_of_fmap_2, Hx.
      * exfalso. apply Hy. rewrite Heq. apply list_elem_of_fmap_2, Hin.
      * apply IH; assumption.
  - destruct (removePeerFromInterface _), (Peers.config_file_path r) as [path|];
      cbn [string_or_null app]; try reflexivity;
      destruct (Str.is_empty path); try reflexivity;
      destruct (file_remove denv); reflexivity.
Qed.

Lemma deletePeer_removes_row_witness :
  let db := MkDb three_peers [server_row] in
  let r := peer_row "2" "KEY2" in
  exists after effects,
    deletePeer rough_delete_env "user-2" (Peers.id r) db = (after, Deleted, effects) /\
    wireguard_server after = wireguard_server db /\
    (forall x, x ∈ wireguard_peers after <-> x ∈ wireguard_peers db /\ x <> r) /\
    effects =
      (Run "sudo" ["wg"; "set"; "wg0"; "peer"; Peers.public_key r; "remove"]
       :: match Peers.config_file_path r with
          | Some path => if Str.is_empty path then [] else [RemoveFile path]
          | None => []
          end)%list.
Proof.
  intros db r.
  apply (deletePeer_removes_row rough_delete_env "user-2" db r).
  - exact three_peers_distinct.
  - apply list_elem_of_further, list_elem_of_here.
  - reflexivity.
Defined.

(** What an insert that the store accepts has checked and stored. *)
Lemma insert_peer_accepted cenv userId name allowed_ips rows peer :
  insert_peer cenv userId name allowed_ips rows = inr peer ->
  exists n,
    name = Some n /\
    peer = Peers.Make (generated_id cenv) userId n (generated_public_key cenv)
             (generated_private_key cenv) allowed_ips None (Some 25)
             never_connected None (Some 0) (Some 0) None
             (inserted_at cenv) (inserted_at cenv) /\
    (generated_id cenv ∉ map Peers.id rows) /\
    (generated_public_key cenv ∉ map Peers.public_key rows) /\
    (forall r, r ∈ rows -> ~ (Peers.name r = n /\ Peers.user_id r = userId)).
Proof.
  unfold insert_peer. destruct name as [n|]; [|discriminate].
  destruct (existsb (fun r => bool_decide (Peers.id r = generated_id cenv)) rows)
    eqn:H1; [discriminate|].
  destruct (existsb (fun r => bool_decide (Peers.name r = n /\ Peers.user_id r = userId))
              rows) eqn:H2; [discriminate|].
  destruct (existsb (fun r => bool_decide (Peers.public_key r = generated_public_key cenv))
              rows) eqn:H3; [discriminate|].
  intros [= <-]. exists n. split; [reflexivity|]. split; [reflexivity|].
  assert (Hno : forall (f : Peers.row -> bool) r,
            existsb f rows = false -> r ∈ rows -> f r = false).
  { intros f r Hf Hr. apply not_true_iff_false. intros Hfr.
    apply not_true_iff_false in Hf. apply Hf, existsb_exists.
    exists r. split; [apply list_elem_of_In, Hr|exact Hfr]. }
  repeat split.
  - intros Hin. apply list_elem_of_fmap in Hin as (x & Hx & Hin).
    specialize (Hno _ x H1 Hin). cbn in Hno.
    apply bool_decide_eq_false in Hno. congruence.
  - intros Hin. apply list_elem_of_fmap in Hin as (x & Hx & Hin).
    specialize (Hno _ x H3 Hin). cbn in Hno.
    apply bool_decide_eq_false in Hno. congruence.
  - intros r Hr. specialize (Hno _ r H2 Hr). cbn in Hno.
    apply bool_decide_eq_false in Hno. exact Hno.
Qed.

Lemma createPeer_inserts cenv userId params db after body :
  createPeer cenv userId params db = (after, Ok body) ->
  exists stored,
    wireguard_peers after = (wireguard_peers db ++ [stored])%list /\
    wireguard_server after = wireguard_server db /\
    identity (Peers.apply (Peers.Patch None None None None None (Some None) None) stored)
      = identity (created_peer body) /\
    insert_peer cenv userId (param_name params)
      (allowed_ips_or_default (param_allowedIps params)) (wireguard_peers db)
    = inr (created_peer body).
Proof.
  unfold createPeer.
  destruct (insert_peer _ _ _ _ _) as [cause|peer] eqn:Hins; [discriminate|].
  destruct (insert_peer_accepted _ _ _ _ _ _ Hins) as (n & _ & Hpeer & Hfresh & _).
  destruct (head (wireguard_server db)); [|discriminate].
  destruct (path_update cenv); [| |discriminate].
  - intros [= <- <-]. cbn [wireguard_peers wireguard_server created_peer].
    eexists. split; [|split; [reflexivity|split; [|reflexivity]]].
    + unfold Peers.update_where_id. rewrite map_app. cbn [map].
      rewrite decide_True by reflexivity. f_equal.
      rewrite <- (map_id (wireguard_peers db)) at 2. apply map_ext_in.
      intros x Hx. rewrite decide_False; [reflexivity|].
      intros Heq. apply Hfresh. rewrite Hpeer in Heq. cbn in Heq. rewrite <- Heq.
      apply list_elem_of_fmap_2, list_elem_of_In, Hx.
    + rewrite Hpeer. reflexivity.
  - intros [= <- <-]. cbn [wireguard_peers wireguard_server created_peer].
    eexists. split; [reflexivity|]. split; [reflexivity|].
    split; [rewrite Hpeer; reflexivity|reflexivity].
Qed.

(** X24.  Deleting the peer that a successful [createPeer] has just
    answered with gives back the store as it was before the creation,
    rows and order, whoever deletes, when the store applies the
    delete. *)
Theorem create_then_delete cenv denv userId deleter params db after body :
  createPeer cenv userId params db = (after, Ok body) ->
  row_delete denv = Applied ->
  exists effects,
    deletePeer denv deleter (Peers.id (created_peer body)) after
    = (db, Deleted, effects).
Proof.
  intros Hcreate Hdel.
  destruct (createPeer_inserts _ _ _ _ _ _ Hcreate)
    as (stored & Hrows & Hservers & Hid & Hins).
  destruct (insert_peer_accepted _ _ _ _ _ _ Hins) as (n & _ & Hpeer & Hfresh & _).
  assert (Hbody : Peers.id (created_peer body) = generated_id cenv)
    by (rewrite Hpeer; reflexivity).
  assert (Hstored : Peers.id stored = generated_id cenv).
  { apply (f_equal (fun t => t.1.1.1.1.1.1.1.1)) in Hid. cbn in Hid. congruence. }
  assert (Hold : forall x, x ∈ wireguard_peers db -> has_id (generated_id cenv) x = false).
  { intros x Hx. apply bool_decide_eq_false_2. intros Heq.
    apply Hfresh. rewrite <- Heq. apply list_elem_of_fmap_2, Hx. }
  unfold deletePeer. rewrite Hbody, Hrows, !List.filter_app.
  rewrite (filter_none (has_id (generated_id cenv)) (wireguard_peers db) Hold).
  cbn [List.filter app]. unfold has_id at 1 3. rewrite Hstored.
  rewrite bool_decide_eq_true_2 by reflexivity. cbn [single negb app].
  rewrite Hdel, app_nil_r. rewrite filter_all.
  - eexists. destruct db, after. cbn in *. subst. reflexivity.
  - intros x Hx. apply negb_true_iff, Hold, list_elem_of_In, Hx.
Qed.

Lemma create_then_delete_witness :
  let db := MkDb three_peers [server_row] in
  exists after body effects,
    createPeer create_env "user-1" (MkParams (Some "laptop") None) db
    = (after, Ok body) /\
    deletePeer rough_delete_env "user-2" (Peers.id (created_peer body)) after
    = (db, Deleted, effects).
Proof.
  intros db.
  destruct (createPeer create_env "user-1" (MkParams (Some "laptop") None) db)
    as [after [body|failure]] eqn:E; [|vm_compute in E; discriminate E].
  destruct (create_then_delete create_env rough_delete_env "user-1" "user-2"
              (MkParams (Some "laptop") None) db after body E eq_refl)
    as [effects H].
  exists after, body, effects. split; [reflexivity|exact H].
Defined.

(** The rows after [createPeer]: the rows before it, with at most one
    row more, which is the accepted insert but for its
    [config_file_path]. *)
Lemma createPeer_rows cenv userId params db :
  wireguard_peers (createPeer cenv userId params db).1 = wireguard_peers db \/
  exists peer stored,
    insert_peer cenv userId (param_name params)
      (allowed_ips_or_default (param_allowedIps params)) (wireguard_peers db)
    = inr peer /\
    wireguard_peers (createPeer cenv userId params db).1
    = (wireguard_peers db ++ [stored])%list /\
    Peers.id stored = Peers.id peer /\
    Peers.public_key stored = Peers.public_key peer /\
    Peers.name stored = Peers.name peer /\
    Peers.user_id stored = Peers.user_id peer.
Proof.
  unfold createPeer.
  destruct (insert_peer _ _ _ _ _) as [cause|peer] eqn:Hins; [left; reflexivity|].
  right. exists peer.
  destruct (insert_peer_accepted _ _ _ _ _ _ Hins) as (n & _ & Hpeer & Hfresh & _).
  destruct (head (wireguard_server db));
    [|exists peer; cbn; repeat split; reflexivity].
  destruct (path_update cenv);
    [|exists peer; cbn; repeat split; reflexivity
     |exists peer; cbn; repeat split; reflexivity].
  eexists. split; [reflexivity|]. cbn [fst wireguard_peers]. split.
  - unfold Peers.update_where_id. rewrite map_app. cbn [map].
    rewrite decide_True by reflexivity. f_equal.
    rewrite <- (map_id (wireguard_peers db)) at 2. apply map_ext_in.
    intros x Hx. rewrite decide_False; [reflexivity|].
    intros Heq. apply Hfresh. rewrite Hpeer in Heq. cbn in Heq. rewrite <- Heq.
    apply list_elem_of_fmap_2, list_elem_of_In, Hx.
  - repeat split; reflexivity.
Qed.

(** X25.  [createPeer] keeps the peer rows distinct, however it ends:
    when the ids, the public keys and the pairs of name and owner of
    the rows are distinct before the call, they are after it. *)
Theorem createPeer_keeps_rows_distinct cenv userId params db :
  NoDup (map Peers.id (wireguard_peers db)) ->
  NoDup (map Peers.public_key (wireguard_peers db)) ->
  NoDup (map named (wireguard_peers db)) ->
  let after := (createPeer cenv userId params db).1 in
  NoDup (map Peers.id (wireguard_peers after)) /\
  NoDup (map Peers.public_key (wireguard_peers after)) /\
  NoDup (map named (wireguard_peers after)).
Proof.
  intros Hid Hkey Hname after. subst after.
  destruct (createPeer_rows cenv userId params db)
    as [->|(peer & stored & Hins & -> & Hsid & Hskey & Hsname & Hsuser)];
    [auto|].
  destruct (insert_peer_accepted _ _ _ _ _ _ Hins)
    as (n & _ & Hpeer & Hfresh & Hfreshkey & Hfreshname).
  rewrite !map_app. cbn [map]. unfold named at 2.
  rewrite Hsid, Hskey, Hsname, Hsuser, Hpeer. cbn.
  repeat split; apply NoDup_app; (split; [assumption|]);
    (split; [|apply NoDup_singleton]).
  - intros x Hx Hin. apply list_elem_of_singleton in Hin as ->. exact (Hfresh Hx).
  - intros x Hx Hin. apply list_elem_of_singleton in Hin as ->. exact (Hfreshkey Hx).
  - intros x Hx Hin. apply list_elem_of_singleton in Hin as ->.
    apply list_elem_of_fmap in Hx as (r & Hr & Hin). unfold named in Hr.
    injection Hr as Hrn Hru. exact (Hfreshname r Hin (conj (eq_sym Hrn) (eq_sym Hru))).
Qed.

Lemma createPeer_keeps_rows_distinct_witness :
  let after :=
    (createPeer create_env "user-1" (MkParams (Some "laptop") None)
       (MkDb three_peers [server_row])).1 in
  NoDup (map Peers.id (wireguard_peers after)) /\
  NoDup (map Peers.public_key (wireguard_peers after)) /\
  NoDup (map named (wireguard_peers after)).
Proof.
  apply (createPeer_keeps_rows_distinct create_env "user-1"
           (MkParams (Some "laptop") None) (MkDb three_peers [server_row]));
    apply (bool_decide_unpack _); vm_compute; exact I.
Defined.

(** X26.  When the server table is empty, [createPeer] answers
    "Server configuration not found" after the insert: the new row
    stays in the store, without a configuration file, and every later
    [createPeer] of the same name by the same user fails on it. *)
Theorem createPeer_without_server cenv userId params db peer :
  wireguard_server db = [] ->
  insert_peer cenv userId (param_name params)
    (allowed_ips_or_default (param_allowedIps params)) (wireguard_peers db)
  = inr peer ->
  let left_behind := MkDb (wireguard_peers db ++ [peer])%list [] in
  createPeer cenv userId params db
    = (left_behind, ServerError ServerConfigurationNotFound) /\
  forall cenv', exists cause,
    createPeer cenv' userId params left_behind
    = (left_behind, ServerError (FailedToCreatePeer cause)).
Proof.
  intros Hserver Hins left_behind. split.
  - unfold createPeer. rewrite Hins, Hserver. reflexivity.
  - intros cenv'. unfold createPeer, insert_peer.
    destruct (insert_peer_accepted _ _ _ _ _ _ Hins) as (n & -> & Hpeer & _).
    cbn [wireguard_peers left_behind].
    destruct (existsb _ _); [eexists; reflexivity|].
    rewrite existsb_app. 
    replace (existsb _ [peer]) with true.
    + rewrite orb_true_r. eexists; reflexivity.
    + rewrite Hpeer. cbn. rewrite bool_decide_eq_true_2 by auto. reflexivity.
Qed.

Lemma createPeer_without_server_witness :
  let params := MkParams (Some "laptop") None in
  let peer :=
    Peers.Make "peer-9" "user-1" "laptop" "PUBLICKEY" "PRIVATEKEY" "10.0.0.2/32"
      None (Some 25) never_connected None (Some 0) (Some 0) None
      1700000000000 1700000000000 in
  let left_behind := MkDb (three_peers ++ [peer])%list [] in
  createPeer create_env "user-1" params (MkDb three_peers [])
    = (left_behind, ServerError ServerConfigurationNotFound) /\
  forall cenv', exists cause,
    createPeer cenv' "user-1" params left_behind
    = (left_behind, ServerError (FailedToCreatePeer cause)).
Proof.
  intros params peer.
  apply (createPeer_without_server create_env "user-1" params (MkDb three_peers []) peer);
    reflexivity.
Defined.

(** ** Simulated keys *)

Lemma charAt_length j : (j < 64)%nat -> String.length (charAt key_alphabet j) = 1%nat.
Proof.
  intros Hj. do 64 (destruct j as [|j]; [reflexivity|]). lia.
Qed.

Lemma length_append (a b : string) :
  String.length (a ++ b) = (String.length a + String.length b)%nat.
Proof.
  induction a as [|c a IH]; [reflexivity|].
  change (S (String.length (a ++ b)) = S (String.length a + String.length b)).
  f_equal. exact IH.
Qed.

Lemma simulated_loop_length draw passes : forall i result,
  (forall j, (draw j < 64)%nat) ->
  String.length (simulated_loop draw i passes result)
  = (String.length result + passes)%nat.
Proof.
  induction passes as [|passes IH]; intros i result Hdraw; cbn [simulated_loop].
  - lia.
  - rewrite IH by exact Hdraw. rewrite length_append, charAt_length by apply Hdraw. lia.
Qed.

Lemma simulated_key_length draw :
  (forall j, (draw j < 64)%nat) ->
  String.length (simulated_key draw) = 45%nat /\
  String.get 44 (simulated_key draw) = Some "="%char.
Proof.
  intros Hdraw. unfold simulated_key.
  pose proof (simulated_loop_length draw 44 0 "" Hdraw) as Hlen.
  cbn [String.length Nat.add] in Hlen.
  split; [rewrite length_append, Hlen; reflexivity|].
  rewrite <- Hlen at 1. clear Hlen.
  generalize (simulated_loop draw 0 44 ""). intros s.
  induction s as [|c s IH]; [reflexivity|exact IH].
Qed.



(** ** The request handler *)

Lemma is_prefix_app p l : Str.is_prefix p (p ++ l) = true.
Proof.
  induction p as [|c p IH]; [reflexivity|]. cbn [app Str.is_prefix].
  rewrite Ascii.eqb_refl. exact IH.
Qed.

Lemma remove_first_absent p l :
  Str.includes_list p l = false -> remove_first p l = l.
Proof.
  induction l as [|c l IH]; cbn [Str.includes_list remove_first]; intros H.
  - rewrite orb_false_r in H. rewrite H. reflexivity.
  - apply orb_false_elim in H as [H1 H2]. rewrite H1, IH by exact H2. reflexivity.
Qed.

(** X28.  The token that [serve] checks is the header without its
    first [Bearer ]: a header [Bearer <token>] gives the token, and so
    does the bare token as a header, when it does not hold [Bearer ]
    itself. *)
Theorem bearer_token_reads_both_forms token :
  Str.includes token "Bearer " = false ->
  bearer_token ("Bearer " ++ token) = token /\ bearer_token token = token.
Proof.
  intros H. unfold bearer_token. split.
  - rewrite chars_app.
    destruct (Str.chars "Bearer " ++ Str.chars token)%list eqn:E;
      cbn [remove_first]; rewrite <- E, is_prefix_app, drop_app_length;
      apply unchars_chars.
  - rewrite remove_first_absent by exact H. apply unchars_chars.
Qed.

Lemma bearer_token_reads_both_forms_witness :
  bearer_token "Bearer eyJhbGciOi" = "eyJhbGciOi" /\
  bearer_token "eyJhbGciOi" = "eyJhbGciOi".
Proof. apply (bearer_token_reads_both_forms "eyJhbGciOi"). reflexivity. Defined.

